(** * Cart and order placement of the menu page (Frontend/src/pages/Menu.jsx)

    A shallow embedding of the [Menu] component's event handlers.  The hook
    state of the component, the browser's [localStorage] and the observable
    effects (toasts, navigation, HTTP requests) are threaded through a small
    state-and-exception monad; every handler of the source is one monadic
    action with the source's name.

    Numbers.  Prices and totals are JavaScript numbers, that is IEEE-754
    binary64 values, modelled by the primitive floats of the kernel
    ([PrimFloat.float]): sums and products round as the code's do.
    Quantities are counts and are modelled as integers ([Z]); [number] turns
    a count into the double that holds it.

    Events.  One handler runs at a time, from the state of the latest
    render.  Navigation is recorded as an effect; the unmounting of the page
    that follows it is not modelled. *)

From Stdlib Require Import Ascii PrimFloat.
From stdpp Require Import base numbers option list strings gmap.

Open Scope string_scope.
Open Scope list_scope.
Open Scope Z_scope.

(** ** Data model *)

(** An entry of the menu, as returned by [GET /menu]. *)
Record MenuItem := {
  mi_id : string;                       (* item._id *)
  mi_name : string;
  mi_description : string;
  mi_price : float;
  mi_category : string;
  mi_ingredients : option (list string);
  mi_image : option string
}.

(** A cart line is the object [{...item, quantity, removedIngredients,
    specialRequest}]: the fields of the menu item, spread flat, and three
    further ones. *)
Record CartLine := {
  _id : string;
  name : string;
  description : string;
  price : float;
  category : string;
  ingredients : option (list string);
  image : option string;
  quantity : Z;
  removedIngredients : list string;
  specialRequest : string
}.

(** [{...item, quantity: q, removedIngredients: r, specialRequest: s}] *)
Definition spread_item (item : MenuItem) (q : Z) (r : list string) (s : string)
  : CartLine :=
  {| _id := mi_id item; name := mi_name item;
     description := mi_description item; price := mi_price item;
     category := mi_category item; ingredients := mi_ingredients item;
     image := mi_image item;
     quantity := q; removedIngredients := r; specialRequest := s |}.

(** [{...cartItem, quantity: q}] *)
Definition with_quantity (cartItem : CartLine) (q : Z) : CartLine :=
  {| _id := _id cartItem; name := name cartItem;
     description := description cartItem; price := price cartItem;
     category := category cartItem; ingredients := ingredients cartItem;
     image := image cartItem;
     quantity := q;
     removedIngredients := removedIngredients cartItem;
     specialRequest := specialRequest cartItem |}.

(** The menu item a cart line was spread from. *)
Definition item_of (l : CartLine) : MenuItem :=
  {| mi_id := _id l; mi_name := name l; mi_description := description l;
     mi_price := price l; mi_category := category l;
     mi_ingredients := ingredients l; mi_image := image l |}.

(** One element of [orderData.items]. *)
Record OrderItem := {
  oi_menuItem : string;
  oi_quantity : Z;
  oi_price : float;
  oi_removedIngredients : list string;
  oi_specialRequest : string
}.

Record OrderData := {
  items : list OrderItem;
  totalAmount : float
}.

(** The body of a response of [POST /orders]: [{success, orderId, message}],
    each of which may be missing. *)
Record ResponseData := {
  success : bool;
  orderId : option string;
  message : option string
}.

(** [error.response] of a rejected request. *)
Record ErrorResponse := {
  status : Z;
  data : option ResponseData
}.

(** Values thrown: an error of the HTTP client (with [response] when the
    server answered), an [Error] made by the page, or a [TypeError] of the
    runtime. *)
Inductive JsError :=
| HttpError (msg : string) (response : option ErrorResponse)
| Error (msg : string)
| TypeError (msg : string).

Definition error_message (e : JsError) : string :=
  match e with
  | HttpError m _ => m
  | Error m => m
  | TypeError m => m
  end.

Definition error_response (e : JsError) : option ErrorResponse :=
  match e with
  | HttpError _ r => r
  | _ => None
  end.

(** A settled promise. *)
Inductive Settled (A : Type) :=
| Fulfilled (value : A)
| Rejected (reason : JsError).
Arguments Fulfilled {A} value.
Arguments Rejected {A} reason.

(** The remote API, as far as the page consumes it.  [post_orders] answers
    [response.data] for the order and [Authorization] header it is sent. *)
Record Server := {
  post_orders : OrderData → string → Settled (option ResponseData);
  get_menu : Settled (list MenuItem)
}.

(** What a toast shows.  The toast of an unavailable item carries a button
    whose handler closes over the cart of the render that placed the order. *)
Inductive Toast :=
| ToastSuccess (msg : string)
| ToastError (msg : string)
| ToastUnavailable (msg : string) (captured : list CartLine).

Inductive Event :=
| EToast (t : Toast)
| ENavigate (path : string)
| EConsoleError (label : string) (e : JsError)
| EPost (url : string) (body : OrderData) (authorization : string)
| EGet (url : string).

Definition is_request (e : Event) : bool :=
  match e with
  | EPost _ _ _ | EGet _ => true
  | _ => false
  end.

(** The hook state of [Menu] used by the handlers, the authentication
    context, the browser storage, and the effects performed so far. *)
Record World := {
  menuItems : list MenuItem;
  cart : list CartLine;
  isPlacingOrder : bool;
  customizingItem : option MenuItem;
  specialRequestInput : string;         (* the [specialRequest] state *)
  removedIngredientsInput : list string;(* the [removedIngredients] state *)
  isAuthenticated : bool;
  localStorage : gmap string string;
  trace : list Event
}.

(** ** JavaScript helpers *)

(** [o || d] on a string that may be missing: the empty string is falsy. *)
Definition or_default (o : option string) (d : string) : string :=
  match o with
  | Some s => if bool_decide (s = "") then d else s
  | None => d
  end.

(** A value that may be missing, inside a template literal. *)
Definition render (missing : string) (o : option string) : string :=
  default missing o.

(** The double that holds the integer [z]: exact for every integer below
    2^53 in absolute value, which covers every count the page can reach. *)
Fixpoint number_pos (p : positive) : float :=
  match p with
  | xH => 1%float
  | xO p' => (2 * number_pos p')%float
  | xI p' => (2 * number_pos p' + 1)%float
  end.

Definition number (z : Z) : float :=
  match z with
  | Z0 => 0%float
  | Zpos p => number_pos p
  | Zneg p => (- number_pos p)%float
  end.

(** [hay.includes(needle)] *)
Fixpoint includes (needle hay : string) : bool :=
  String.prefix needle hay ||
  match hay with
  | EmptyString => false
  | String _ rest => includes needle rest
  end.

(** [s.split(c)] for a separator of one character. *)
Fixpoint split (c : ascii) (s : string) : list string :=
  match s with
  | EmptyString => [EmptyString]
  | String a rest =>
      if bool_decide (a = c) then EmptyString :: split c rest
      else match split c rest with
           | piece :: pieces => String a piece :: pieces
           | [] => [String a EmptyString]
           end
  end.

(** [l.findIndex(P)]: the first index whose element satisfies [P], else -1. *)
Definition findIndex {A} (P : A → Prop) `{∀ x, Decision (P x)} (l : list A) : Z :=
  match list_find P l with
  | Some (i, _) => Z.of_nat i
  | None => -1
  end.

(** [l.find(P)] *)
Definition find {A} (P : A → Prop) `{∀ x, Decision (P x)} (l : list A) : option A :=
  snd <$> list_find P l.

(** ** The monad of handlers *)

Inductive Completion (A : Type) :=
| Normal (a : A)
| Thrown (e : JsError).
Arguments Normal {A} a.
Arguments Thrown {A} e.

Definition M (A : Type) : Type := World → Completion A * World.

Definition ret {A} (a : A) : M A := λ w, (Normal a, w).

Definition bind {A B} (m : M A) (k : A → M B) : M B :=
  λ w, match m w with
       | (Normal a, w') => k a w'
       | (Thrown e, w') => (Thrown e, w')
       end.

Definition throw {A} (e : JsError) : M A := λ w, (Thrown e, w).

(** [try { m } catch (error) { handler }] *)
Definition try_catch {A} (m : M A) (handler : JsError → M A) : M A :=
  λ w, match m w with
       | (Normal a, w') => (Normal a, w')
       | (Thrown e, w') => handler e w'
       end.

(** [try { m } finally { fin }], for a [fin] that completes normally or
    throws; a throw of [fin] replaces the completion of [m]. *)
Definition try_finally {A} (m : M A) (fin : M unit) : M A :=
  λ w, match m w with
       | (c, w') =>
           match fin w' with
           | (Normal _, w'') => (c, w'')
           | (Thrown e, w'') => (Thrown e, w'')
           end
       end.

Notation "x <- m ;; k" := (bind m (λ x, k))
  (at level 100, m at next level, right associativity,
   format "'[v' x  <-  m  ;;  '/' k ']'").
Notation "m ;;; k" := (bind m (λ _, k))
  (at level 100, right associativity, format "'[v' m  ;;;  '/' k ']'").

Definition gets {A} (f : World → A) : M A := λ w, (Normal (f w), w).
Definition modify (f : World → World) : M unit := λ w, (Normal tt, f w).

(** The world after a handler has run, and how it completed. *)
Definition exec {A} (m : M A) (w : World) : World := snd (m w).
Definition completion {A} (m : M A) (w : World) : Completion A := fst (m w).

(** *** State setters and effects *)

Definition setMenuItems (v : list MenuItem) : M unit :=
  modify (λ w, {| menuItems := v; cart := cart w;
                  isPlacingOrder := isPlacingOrder w;
                  customizingItem := customizingItem w;
                  specialRequestInput := specialRequestInput w;
                  removedIngredientsInput := removedIngredientsInput w;
                  isAuthenticated := isAuthenticated w;
                  localStorage := localStorage w; trace := trace w |}).

Definition setCart (v : list CartLine) : M unit :=
  modify (λ w, {| menuItems := menuItems w; cart := v;
                  isPlacingOrder := isPlacingOrder w;
                  customizingItem := customizingItem w;
                  specialRequestInput := specialRequestInput w;
                  removedIngredientsInput := removedIngredientsInput w;
                  isAuthenticated := isAuthenticated w;
                  localStorage := localStorage w; trace := trace w |}).

Definition setIsPlacingOrder (v : bool) : M unit :=
  modify (λ w, {| menuItems := menuItems w; cart := cart w;
                  isPlacingOrder := v;
                  customizingItem := customizingItem w;
                  specialRequestInput := specialRequestInput w;
                  removedIngredientsInput := removedIngredientsInput w;
                  isAuthenticated := isAuthenticated w;
                  localStorage := localStorage w; trace := trace w |}).

Definition setCustomizingItem (v : option MenuItem) : M unit :=
  modify (λ w, {| menuItems := menuItems w; cart := cart w;
                  isPlacingOrder := isPlacingOrder w;
                  customizingItem := v;
                  specialRequestInput := specialRequestInput w;
                  removedIngredientsInput := removedIngredientsInput w;
                  isAuthenticated := isAuthenticated w;
                  localStorage := localStorage w; trace := trace w |}).

Definition setSpecialRequest (v : string) : M unit :=
  modify (λ w, {| menuItems := menuItems w; cart := cart w;
                  isPlacingOrder := isPlacingOrder w;
                  customizingItem := customizingItem w;
                  specialRequestInput := v;
                  removedIngredientsInput := removedIngredientsInput w;
                  isAuthenticated := isAuthenticated w;
                  localStorage := localStorage w; trace := trace w |}).

Definition setRemovedIngredients (v : list string) : M unit :=
  modify (λ w, {| menuItems := menuItems w; cart := cart w;
                  isPlacingOrder := isPlacingOrder w;
                  customizingItem := customizingItem w;
                  specialRequestInput := specialRequestInput w;
                  removedIngredientsInput := v;
                  isAuthenticated := isAuthenticated w;
                  localStorage := localStorage w; trace := trace w |}).

Definition setLocalStorage (v : gmap string string) : M unit :=
  modify (λ w, {| menuItems := menuItems w; cart := cart w;
                  isPlacingOrder := isPlacingOrder w;
                  customizingItem := customizingItem w;
                  specialRequestInput := specialRequestInput w;
                  removedIngredientsInput := removedIngredientsInput w;
                  isAuthenticated := isAuthenticated w;
                  localStorage := v; trace := trace w |}).

Definition emit (e : Event) : M unit :=
  modify (λ w, {| menuItems := menuItems w; cart := cart w;
                  isPlacingOrder := isPlacingOrder w;
                  customizingItem := customizingItem w;
                  specialRequestInput := specialRequestInput w;
                  removedIngredientsInput := removedIngredientsInput w;
                  isAuthenticated := isAuthenticated w;
                  localStorage := localStorage w;
                  trace := trace w ++ [e] |}).

Definition toast_success (msg : string) : M unit := emit (EToast (ToastSuccess msg)).
Definition toast_error (msg : string) : M unit := emit (EToast (ToastError msg)).
Definition navigate (path : string) : M unit := emit (ENavigate path).
Definition console_error (label : string) (e : JsError) : M unit :=
  emit (EConsoleError label e).

Definition localStorage_getItem (key : string) : M (option string) :=
  gets (λ w, localStorage w !! key).
Definition localStorage_removeItem (key : string) : M unit :=
  store <- gets localStorage ;; setLocalStorage (delete key store).

(** [await p]: a fulfilled promise gives its value, a rejected one throws. *)
Definition await {A} (p : Settled A) : M A :=
  match p with
  | Fulfilled v => ret v
  | Rejected e => throw e
  end.

Definition api_post (srv : Server) (url : string) (body : OrderData)
    (authorization : string) : M (option ResponseData) :=
  emit (EPost url body authorization) ;;;
  await (post_orders srv body authorization).

Definition api_get (srv : Server) (url : string) : M (list MenuItem) :=
  emit (EGet url) ;;;
  await (get_menu srv).

(** Reading a property of a value that may be [undefined] throws a
    [TypeError] when it is. *)
Definition property_of {A} (what : string) (o : option A) : M A :=
  match o with
  | Some a => ret a
  | None => throw (TypeError ("Cannot read properties of undefined (reading '" +:+ what +:+ "')"))
  end.

(** ** The handlers of [Menu] *)

(** Each handler closes over the [cart] of the current render; [gets cart]
    at its start is that capture. *)

Definition addToCart (item : MenuItem) : M unit :=
  cart <- gets cart ;;
  let existingItem := find (λ cartItem, _id cartItem = mi_id item) cart in
  match existingItem with
  | Some _ =>
      setCart
        ((λ cartItem,
           if bool_decide (_id cartItem = mi_id item)
           then with_quantity cartItem (quantity cartItem + 1)
           else cartItem) <$> cart)
  | None =>
      setCart (cart ++ [spread_item item 1 [] ""])
  end ;;;
  toast_success ("Added " +:+ mi_name item +:+ " to cart").

Definition addCustomizedToCart : M unit :=
  customizing <- gets customizingItem ;;
  match customizing with
  | None => ret tt
  | Some customizingItem =>
      removedIngredients <- gets removedIngredientsInput ;;
      specialRequest <- gets specialRequestInput ;;
      cart <- gets cart ;;
      let customizedItem :=
        spread_item customizingItem 1 removedIngredients specialRequest in
      let existingIndex :=
        findIndex (λ item, _id item = _id customizedItem) cart in
      (if bool_decide (0 ≤ existingIndex) then
         setCart
           (imap (λ index item,
                    if bool_decide (Z.of_nat index = existingIndex)
                    then customizedItem else item) cart)
       else
         setCart (cart ++ [customizedItem])) ;;;
      setCustomizingItem None ;;;
      setRemovedIngredients [] ;;;
      setSpecialRequest "" ;;;
      toast_success ("Added customized " +:+ mi_name customizingItem +:+ " to cart")
  end.

Definition removeFromCart (itemId : string) : M unit :=
  cart <- gets cart ;;
  setCart (filter (λ item, _id item ≠ itemId) cart).

Definition updateQuantity (itemId : string) (newQuantity : Z) : M unit :=
  if bool_decide (newQuantity < 1) then ret tt
  else
    cart <- gets cart ;;
    setCart
      ((λ item,
         if bool_decide (_id item = itemId)
         then with_quantity item newQuantity else item) <$> cart).

(** [cart.reduce((total, item) => total + item.price * item.quantity, 0)] *)
Definition calculateTotal (cart : list CartLine) : float :=
  foldl (λ total item, (total + price item * number (quantity item))%float)
        0%float cart.

(** The projection of one cart line into [orderData.items].  An array is
    truthy even when empty, so [item.removedIngredients || []] is the
    array itself. *)
Definition order_item (item : CartLine) : OrderItem :=
  {| oi_menuItem := _id item;
     oi_quantity := quantity item;
     oi_price := price item;
     oi_removedIngredients := removedIngredients item;
     oi_specialRequest := or_default (Some (specialRequest item)) "" |}.

(** The [catch] block of [placeOrder]. *)
Definition placeOrder_catch (srv : Server) (cart : list CartLine)
    (error : JsError) : M unit :=
  console_error "Error placing order:" error ;;;
  match error_response error with
  | Some response =>
      let status := status response in
      let data := data response in
      if bool_decide (status = 400) then
        d <- property_of "message" data ;;
        msg <- property_of "includes" (message d) ;;
        if includes "unavailable" msg then
          emit (EToast (ToastUnavailable msg cart))
        else
          toast_error (or_default (Some msg) "Invalid order data")
      else if bool_decide (status = 401) then
        toast_error "Session expired. Please login again" ;;;
        localStorage_removeItem "token" ;;;
        navigate "/login"
      else if bool_decide (status = 404) then
        toast_error "Menu item not found - please refresh the menu" ;;;
        menuResponse <- api_get srv "/menu" ;;
        setMenuItems menuResponse
      else
        d <- property_of "message" data ;;
        toast_error (or_default (message d) "Failed to place order")
  | None =>
      toast_error (or_default (Some (error_message error)) "Failed to place order")
  end.

(** [orderData] and the [Authorization] header of the request. *)
Definition orderData (cart : list CartLine) : OrderData :=
  {| items := order_item <$> cart;
     totalAmount := calculateTotal cart |}.

Definition authorization (token : option string) : string :=
  "Bearer " +:+ render "null" token.

(** The [try] block of [placeOrder]. *)
Definition placeOrder_try (srv : Server) (cart : list CartLine) : M unit :=
  let orderData := orderData cart in
  token <- localStorage_getItem "token" ;;
  response <- api_post srv "/orders" orderData (authorization token) ;;
  d <- property_of "success" response ;;
  if success d then
    toast_success "Order placed successfully!" ;;;
    setCart [] ;;;
    navigate ("/orders/" +:+ render "undefined" (orderId d))
  else
    throw (Error (or_default (message d) "Failed to place order")).

Definition placeOrder (srv : Server) : M unit :=
  authenticated <- gets isAuthenticated ;;
  if negb authenticated then
    toast_error "Please login to place an order" ;;;
    navigate "/login"
  else
    cart <- gets cart ;;
    if bool_decide (length cart = 0%nat) then
      toast_error "Your cart is empty"
    else
      setIsPlacingOrder true ;;;
      try_finally
        (try_catch (placeOrder_try srv cart) (placeOrder_catch srv cart))
        (setIsPlacingOrder false).

(** The button of the toast for an unavailable item: it filters the cart
    captured when the order was placed. *)
Definition removeUnavailableItems (msg : string) (captured : list CartLine)
  : M unit :=
  let itemName := split "'"%char msg !! 1%nat in
  let newCart := filter (λ item, Some (name item) ≠ itemName) captured in
  setCart newCart.

Definition toggleIngredient (ingredient : string) : M unit :=
  prev <- gets removedIngredientsInput ;;
  setRemovedIngredients
    (if bool_decide (ingredient ∈ prev)
     then filter (λ i, i ≠ ingredient) prev
     else prev ++ [ingredient]).

(** The "Customize" button of a menu card. *)
Definition openCustomization (item : MenuItem) : M unit :=
  setCustomizingItem (Some item) ;;;
  setRemovedIngredients [] ;;;
  setSpecialRequest "".

(** The "Cancel" button of the customization dialog. *)
Definition cancelCustomization : M unit :=
  setCustomizingItem None ;;;
  setRemovedIngredients [] ;;;
  setSpecialRequest "".

(** The effect that loads the menu when the page is mounted. *)
Definition fetchMenu (srv : Server) : M unit :=
  try_catch
    (response <- api_get srv "/menu" ;;
     setMenuItems response)
    (λ error,
       console_error "Error fetching menu:" error ;;;
       toast_error "Failed to load menu items").

(** The state of a freshly mounted page. *)
Definition initial (authenticated : bool) (storage : gmap string string) : World :=
  {| menuItems := []; cart := []; isPlacingOrder := false;
     customizingItem := None; specialRequestInput := "";
     removedIngredientsInput := [];
     isAuthenticated := authenticated; localStorage := storage;
     trace := [] |}.

(** ** The route table of the application (App.jsx)

    [<Route path=... element=... />] of [App], in order. *)
Inductive Page :=
| Home | MenuPage | OrderHistory | FeedbackForm | ChefDashboard | Login | Register.

Definition routes : list (string * Page) :=
  [("/", Home); ("/menu", MenuPage); ("/orders", OrderHistory);
   ("/feedback/:orderId", FeedbackForm); ("/chef-dashboard", ChefDashboard);
   ("/login", Login); ("/register", Register)].

(** The paths that have a route. *)
Definition route_paths : list string := fst <$> routes.

(** ** Sample data *)

Definition burger : MenuItem :=
  {| mi_id := "m1"; mi_name := "Burger"; mi_description := "Beef burger";
     mi_price := 9.5%float; mi_category := "mains";
     mi_ingredients := Some ["bun"; "beef"; "onion"]; mi_image := None |}.

Definition salad : MenuItem :=
  {| mi_id := "m2"; mi_name := "Salad"; mi_description := "Green salad";
     mi_price := 4%float; mi_category := "starters";
     mi_ingredients := None; mi_image := None |}.

(** A fresh page of a logged-in customer. *)
Definition fresh : World := initial true {["token" := "t0k3n"]}.

(** A page whose cart holds two burgers and a salad. *)
Definition shopping : World :=
  exec (addToCart salad) (exec (addToCart burger) (exec (addToCart burger) fresh)).

(** The same page with the customization dialog open on the burger, the
    onion removed and a note typed. *)
Definition customizing : World :=
  exec (setSpecialRequest "no salt")
    (exec (toggleIngredient "onion") (exec (openCustomization burger) shopping)).

(** A server that answers every order with the given settled promise. *)
Definition answering (reply : Settled (option ResponseData)) : Server :=
  {| post_orders := λ _ _, reply; get_menu := Fulfilled [burger; salad] |}.

(** A server that accepts the order, and one for which the session expired. *)
Definition accepting : Server :=
  answering (Fulfilled (Some {| success := true; orderId := Some "o42";
                                message := None |})).

Definition expired : Server :=
  answering (Rejected (HttpError "Request failed with status code 401"
                         (Some {| status := 401; data := None |}))).

(** A server for which the burger is sold out. *)
Definition unavailable : Server :=
  answering (Rejected (HttpError "Request failed with status code 400"
                         (Some {| status := 400;
                                  data := Some {| success := false;
                                                  orderId := None;
                                                  message := Some "Item 'Burger' is unavailable" |} |}))).

(** ** Notions used by the statements *)

(** The sum, over the lines of a cart, of price times quantity, by
    recursion on the cart: the product of a line plus the sum of the lines
    after it. *)
Fixpoint sum_of_lines (lines : list CartLine) : float :=
  match lines with
  | [] => 0%float
  | l :: rest => (price l * number (quantity l) + sum_of_lines rest)%float
  end.

(** A cart of three items priced 0.1, 0.2 and 0.3 (the doubles nearest to
    these decimals), one of each. *)
Definition priced (id : string) (p : float) : MenuItem :=
  {| mi_id := id; mi_name := id; mi_description := ""; mi_price := p;
     mi_category := "sweets"; mi_ingredients := None; mi_image := None |}.

Definition decimals : list CartLine :=
  [spread_item (priced "d1" 0x1.999999999999ap-4) 1 [] "";
   spread_item (priced "d2" 0x1.999999999999ap-3) 1 [] "";
   spread_item (priced "d3" 0x1.3333333333333p-2) 1 [] ""].

(** Two lines that differ at most in their quantity. *)
Definition same_but_quantity (l l' : CartLine) : Prop :=
  item_of l' = item_of l ∧
  removedIngredients l' = removedIngredients l ∧
  specialRequest l' = specialRequest l.

(** A cart has a line of the identity [id]. *)
Definition has_line (id : string) (lines : list CartLine) : Prop :=
  ∃ l, l ∈ lines ∧ _id l = id.

(** The first line of identity [id] is at index [i]. *)
Definition first_line_at (id : string) (lines : list CartLine) (i : nat) : Prop :=
  (∃ l, lines !! i = Some l ∧ _id l = id) ∧
  ∀ j l, (j < i)%nat → lines !! j = Some l → _id l ≠ id.

(** The response of [POST /orders] reports success. *)
Definition succeeded (reply : Settled (option ResponseData)) : bool :=
  match reply with
  | Fulfilled (Some d) => success d
  | _ => false
  end.

(** The reply of the server to the order that [placeOrder] sends from [w]. *)
Definition reply_to (srv : Server) (w : World) : Settled (option ResponseData) :=
  post_orders srv (orderData (cart w)) (authorization (localStorage w !! "token")).

(** The carts captured by the buttons of the toasts shown so far. *)
Definition captured_carts (events : list Event) : list (list CartLine) :=
  omap (λ e, match e with
             | EToast (ToastUnavailable _ captured) => Some captured
             | _ => None
             end) events.

(** An event whose button, if it has one, captures the cart [lines]. *)
Definition captures_only (lines : list CartLine) (e : Event) : Prop :=
  match e with
  | EToast (ToastUnavailable _ captured) => captured = lines
  | _ => True
  end.

(** What the user and the environment can do to a mounted page: every
    handler of the component, with any argument. *)
Inductive step : World → World → Prop :=
| step_fetchMenu w srv :
    step w (exec (fetchMenu srv) w)
| step_addToCart w item :
    step w (exec (addToCart item) w)
| step_openCustomization w item :
    step w (exec (openCustomization item) w)
| step_toggleIngredient w ingredient :
    step w (exec (toggleIngredient ingredient) w)
| step_setSpecialRequest w text :
    step w (exec (setSpecialRequest text) w)
| step_cancelCustomization w :
    step w (exec cancelCustomization w)
| step_addCustomizedToCart w :
    step w (exec addCustomizedToCart w)
| step_removeFromCart w itemId :
    step w (exec (removeFromCart itemId) w)
| step_updateQuantity w itemId newQuantity :
    step w (exec (updateQuantity itemId newQuantity) w)
| step_placeOrder w srv :
    step w (exec (placeOrder srv) w)
| step_removeUnavailableItems w msg captured :
    EToast (ToastUnavailable msg captured) ∈ trace w →
    step w (exec (removeUnavailableItems msg captured) w).

(** The four operations of the cart. *)
Inductive CartOperation :=
| Add (item : MenuItem)
| CustomizeAndAdd
| UpdateQuantity (itemId : string) (newQuantity : Z)
| Remove (itemId : string).

Definition run_operation (op : CartOperation) : M unit :=
  match op with
  | Add item => addToCart item
  | CustomizeAndAdd => addCustomizedToCart
  | UpdateQuantity itemId newQuantity => updateQuantity itemId newQuantity
  | Remove itemId => removeFromCart itemId
  end.

(** The worlds a page can be in: those reached from a fresh mount. *)
Definition reachable (w : World) : Prop :=
  ∃ authenticated storage, rtc step (initial authenticated storage) w.

(** Every quantity is at least 1. *)
Definition quantities_positive (lines : list CartLine) : Prop :=
  Forall (λ l, 1 ≤ quantity l) lines.

(** No two lines share an identity. *)
Definition identities_distinct (lines : list CartLine) : Prop :=
  NoDup (_id <$> lines).

(** A property of carts that every way of building a cart keeps: the empty
    cart has it, and it survives dropping lines, giving the lines
    quantities that are at least 1 where they were, appending a line of
    quantity 1 with a new identity, and putting a line of quantity 1 in
    the place of the first line of its identity. *)
Class CartInvariant (P : list CartLine → Prop) : Prop := {
  invariant_nil : P [];
  invariant_filter (Q : CartLine → Prop) `{∀ l, Decision (Q l)} lines :
    P lines → P (filter Q lines);
  invariant_requantify (q : CartLine → Z) lines :
    (∀ l, 1 ≤ quantity l → 1 ≤ q l) →
    P lines → P ((λ l, with_quantity l (q l)) <$> lines);
  invariant_append item removed request lines :
    (∀ l, l ∈ lines → _id l ≠ mi_id item) →
    P lines → P (lines ++ [spread_item item 1 removed request]);
  invariant_replace item removed request lines i :
    first_line_at (mi_id item) lines i →
    P lines → P (<[i:=spread_item item 1 removed request]> lines)
}.

(** The cart, and every cart a toast button has captured, has [P]. *)
Definition history_ok (P : list CartLine → Prop) (w : World) : Prop :=
  P (cart w) ∧ Forall P (captured_carts (trace w)).

(** ** The rest of the page *)

(** [[...new Set(xs)]]: the elements of [xs] in the order of their first
    occurrence; [seen] is the set built so far. *)
Fixpoint set_add_all (seen xs : list string) : list string :=
  match xs with
  | [] => seen
  | x :: rest =>
      set_add_all (if bool_decide (x ∈ seen) then seen else seen ++ [x]) rest
  end.

(** The categories [fetchMenu] gives to [setCategories]. *)
Definition uniqueCategories (data : list MenuItem) : list string :=
  set_add_all [] (mi_category <$> data).

(** The items shown for the selected category tab. *)
Definition filteredItems (selectedCategory : string) (menuItems : list MenuItem)
  : list MenuItem :=
  if bool_decide (selectedCategory = "all") then menuItems
  else filter (λ item, mi_category item = selectedCategory) menuItems.

(** [checked] of the checkbox of an ingredient in the dialog. *)
Definition ingredient_checked (removedIngredients : list string)
    (ingredient : string) : bool :=
  negb (bool_decide (ingredient ∈ removedIngredients)).

Definition is_post (e : Event) : bool :=
  match e with
  | EPost _ _ _ => true
  | _ => false
  end.

(** The [POST] requests among some events: url, body and header. *)
Definition posts (events : list Event) : list (string * OrderData * string) :=
  omap (λ e, match e with
             | EPost url body header => Some (url, body, header)
             | _ => None
             end) events.

(** The character [c] occurs in [s]. *)
Fixpoint contains_char (c : ascii) (s : string) : bool :=
  match s with
  | EmptyString => false
  | String a rest => bool_decide (a = c) || contains_char c rest
  end.

(** A server that rejects the order with the given status and body, and
    sample ones: a stale menu, and a validation error without a message. *)
Definition rejecting (code : Z) (body : option ResponseData) : Server :=
  answering (Rejected (HttpError "Request failed" (Some {| status := code; data := body |}))).

Definition stale_menu : Server := rejecting 404 None.

(** The rejection that the server [unavailable] answers. *)
Definition sold_out_body : ResponseData :=
  {| success := false; orderId := None;
     message := Some "Item 'Burger' is unavailable" |}.

Definition sold_out_response : ErrorResponse :=
  {| status := 400; data := Some sold_out_body |}.

Definition sold_out_error : JsError :=
  HttpError "Request failed with status code 400" (Some sold_out_response).

Definition tea : MenuItem :=
  {| mi_id := "m3"; mi_name := "Tea"; mi_description := "Black tea";
     mi_price := 1.5%float; mi_category := "drinks";
     mi_ingredients := None; mi_image := None |}.

Definition malformed : Server :=
  rejecting 400 (Some {| success := false; orderId := None; message := None |}).

Definition is_error_toast (e : Event) : bool :=
  match e with
  | EToast (ToastError _) | EToast (ToastUnavailable _ _) => true
  | _ => false
  end.

(** The handlers as the rendered page wires them: the buttons of a menu
    card act on an item of the menu, the dialog exists while an item is
    being customized and has one checkbox per ingredient of that item, the
    buttons of a cart line act on that line ([-] and [+] with its quantity
    minus and plus one), and the order button exists while the cart has
    lines and is disabled while an order is being placed. *)
Inductive ui_step : World → World → Prop :=
| ui_fetchMenu w srv :
    ui_step w (exec (fetchMenu srv) w)
| ui_add w item :
    item ∈ menuItems w →
    ui_step w (exec (addToCart item) w)
| ui_customize w item :
    item ∈ menuItems w →
    ui_step w (exec (openCustomization item) w)
| ui_toggle w item ingredients ingredient :
    customizingItem w = Some item →
    mi_ingredients item = Some ingredients →
    ingredient ∈ ingredients →
    ui_step w (exec (toggleIngredient ingredient) w)
| ui_type w item text :
    customizingItem w = Some item →
    ui_step w (exec (setSpecialRequest text) w)
| ui_cancel w item :
    customizingItem w = Some item →
    ui_step w (exec cancelCustomization w)
| ui_addCustomized w item :
    customizingItem w = Some item →
    ui_step w (exec addCustomizedToCart w)
| ui_remove w line :
    line ∈ cart w →
    ui_step w (exec (removeFromCart (_id line)) w)
| ui_minus w line :
    line ∈ cart w →
    ui_step w (exec (updateQuantity (_id line) (quantity line - 1)) w)
| ui_plus w line :
    line ∈ cart w →
    ui_step w (exec (updateQuantity (_id line) (quantity line + 1)) w)
| ui_placeOrder w srv :
    cart w ≠ [] → isPlacingOrder w = false →
    ui_step w (exec (placeOrder srv) w)
| ui_removeUnavailable w msg captured :
    EToast (ToastUnavailable msg captured) ∈ trace w →
    ui_step w (exec (removeUnavailableItems msg captured) w).

Definition ui_reachable (w : World) : Prop :=
  ∃ authenticated storage, rtc ui_step (initial authenticated storage) w.

(** The removed ingredients of a line are ingredients of its item, each
    listed once. *)
Definition customization_ok (l : CartLine) : Prop :=
  NoDup (removedIngredients l) ∧
  ∀ i, i ∈ removedIngredients l →
       ∃ ingredients', ingredients l = Some ingredients' ∧ i ∈ ingredients'.

(** The inputs of the dialog fit the item being customized, and are reset
    while there is none. *)
Definition dialog_ok (w : World) : Prop :=
  match customizingItem w with
  | Some item =>
      NoDup (removedIngredientsInput w) ∧
      ∀ i, i ∈ removedIngredientsInput w →
           ∃ ingredients', mi_ingredients item = Some ingredients' ∧ i ∈ ingredients'
  | None => removedIngredientsInput w = [] ∧ specialRequestInput w = ""
  end.

(** The state the dialog and the cart are kept in by the page. *)
Definition ui_ok (w : World) : Prop :=
  dialog_ok w ∧
  Forall customization_ok (cart w) ∧
  Forall (Forall customization_ok) (captured_carts (trace w)).

(** The elements of a list in the order of their first occurrence. *)
Fixpoint first_occurrences (xs : list string) : list string :=
  match xs with
  | [] => []
  | x :: rest => x :: filter (λ y, y ≠ x) (first_occurrences rest)
  end.

(** A page that has loaded the menu, on which the visitor customized a
    burger without onion and put it in the cart. *)
Definition serving : Server := answering (Fulfilled None).

Definition browsing : World := exec (fetchMenu serving) fresh.

Definition customized : World :=
  exec addCustomizedToCart
    (exec (toggleIngredient "onion") (exec (openCustomization burger) browsing)).

(** ** The registration page (pages/Register.jsx) *)

Module Register.

(** The argument of [register]: [{ name, email, password, role }], read
    from [formData]; a key that is absent reads as [undefined]. *)
Record Payload := {
  name : option string;
  email : option string;
  password : option string;
  role : option string
}.

(** What [register] of the authentication context resolves to. *)
Record Result := {
  success : bool;
  message : option string
}.

Inductive Effect :=
| CallRegister (payload : Payload)
| ToastSuccess (msg : string)
| ToastError (msg : option string)
| Navigate (path : string).

(** [formData] is an object indexed by the [name] of the input that
    changed. *)
Record State := {
  formData : gmap string string;
  isLoading : bool;
  effects : list Effect
}.

Definition initial : State :=
  {| formData :=
       list_to_map [("name", ""); ("email", ""); ("password", "");
                    ("confirmPassword", ""); ("role", "customer")];
     isLoading := false;
     effects := [] |}.

Definition setFormData (v : gmap string string) (s : State) : State :=
  {| formData := v; isLoading := isLoading s; effects := effects s |}.

Definition setIsLoading (v : bool) (s : State) : State :=
  {| formData := formData s; isLoading := v; effects := effects s |}.

Definition emit (e : Effect) (s : State) : State :=
  {| formData := formData s; isLoading := isLoading s;
     effects := effects s ++ [e] |}.

(** [handleChange(e)] with [e.target.name] and [e.target.value]. *)
Definition handleChange (target_name target_value : string) (s : State) : State :=
  setFormData (<[target_name := target_value]> (formData s)) s.

(** [handleSubmit(e)], given the [register] of the authentication context.
    A rejection of [register] is not caught. *)
Definition handleSubmit (register : Payload → Settled Result) (s : State)
  : Completion unit * State :=
  if bool_decide (formData s !! "password" ≠ formData s !! "confirmPassword") then
    (Normal tt, emit (ToastError (Some "Passwords do not match")) s)
  else
    let s1 := setIsLoading true s in
    let payload :=
      {| name := formData s !! "name"; email := formData s !! "email";
         password := formData s !! "password"; role := formData s !! "role" |} in
    let s2 := emit (CallRegister payload) s1 in
    match register payload with
    | Rejected e => (Thrown e, s2)
    | Fulfilled result =>
        let s3 := setIsLoading false s2 in
        if success result then
          (Normal tt,
           emit (Navigate "/menu") (emit (ToastSuccess "Registration successful!") s3))
        else
          (Normal tt, emit (ToastError (message result)) s3)
    end.

(** The calls of [register], and the navigations, among some effects. *)
Definition calls (es : list Effect) : list Payload :=
  omap (λ e, match e with CallRegister p => Some p | _ => None end) es.

Definition navigations (es : list Effect) : list string :=
  omap (λ e, match e with Navigate path => Some path | _ => None end) es.

(** What [handleSubmit] passes to [register]. *)
Definition payload_of (s : State) : Payload :=
  {| name := formData s !! "name"; email := formData s !! "email";
     password := formData s !! "password"; role := formData s !! "role" |}.

(** The two password inputs hold the same text. *)
Definition passwords_match (s : State) : Prop :=
  formData s !! "password" = formData s !! "confirmPassword".

(** The form as a visitor fills it, one input change after another. *)
Definition fill (changes : list (string * string)) (s : State) : State :=
  foldl (λ s change, handleChange change.1 change.2 s) s changes.

(** Sample data: a filled form, and an authentication context that accepts
    or refuses. *)
Definition filled : State :=
  fill [("name", "Abeba"); ("email", "abeba@example.com");
        ("password", "secret1"); ("confirmPassword", "secret1")] initial.

Definition mistyped : State := handleChange "confirmPassword" "secret2" filled.

Definition accepts : Payload → Settled Result :=
  λ _, Fulfilled {| success := true; message := None |}.

Definition refuses : Payload → Settled Result :=
  λ _, Fulfilled {| success := false; message := Some "Email already in use" |}.

Definition unreachable_server : Payload → Settled Result :=
  λ _, Rejected (HttpError "Network Error" None).

End Register.

(** ** Properties *)

(** *** The handlers on sample data *)

Example shopping_cart :
  cart shopping = [spread_item burger 2 [] ""; spread_item salad 1 [] ""].
Proof. reflexivity. Qed.

Example shopping_total : calculateTotal (cart shopping) = 23%float.
Proof. reflexivity. Qed.

Example customized_burger :
  cart (exec addCustomizedToCart customizing)
  = [spread_item burger 1 ["onion"] "no salt"; spread_item salad 1 [] ""].
Proof. reflexivity. Qed.

Example decrement_at_one :
  cart (exec (updateQuantity "m2" (1 - 1)) shopping) = cart shopping.
Proof. reflexivity. Qed.

Example remove_burger :
  cart (exec (removeFromCart "m1") shopping) = [spread_item salad 1 [] ""].
Proof. reflexivity. Qed.

Example prune_unavailable :
  cart (exec (removeUnavailableItems "Item 'Burger' is unavailable" (cart shopping))
          shopping)
  = [spread_item salad 1 [] ""].
Proof. reflexivity. Qed.

Example unavailable_offers_pruning :
  last (trace (exec (placeOrder unavailable) shopping))
  = Some (EToast (ToastUnavailable "Item 'Burger' is unavailable" (cart shopping))).
Proof. reflexivity. Qed.

(** *** The total *)

(** C4, as the code has it: [total()] adds up price times quantity over the
    cart lines from the first to the last, starting from 0, in double
    arithmetic: it is 0 for the empty cart, and the total of a cart with one
    more line at its end is the total of the cart plus the price times the
    quantity of that line, each product and sum rounded to a double. *)
Theorem calculateTotal_left_to_right :
  calculateTotal [] = 0%float ∧
  ∀ (lines : list CartLine) (l : CartLine),
    calculateTotal (lines ++ [l])
    = (calculateTotal lines + price l * number (quantity l))%float.
Proof.
  split; [reflexivity|].
  intros lines l. unfold calculateTotal. by rewrite foldl_snoc.
Qed.

(** On the cart [decimals] the total is 0.6000000000000001, while the sum
    taken from the last line to the first, and the total of the same lines
    in the opposite order, are 0.6: the total is not a sum that is
    independent of the order of the lines. *)
Lemma calculateTotal_not_the_sum :
  calculateTotal decimals ≠ sum_of_lines decimals ∧
  calculateTotal decimals ≠ calculateTotal (reverse decimals).
Proof.
  split; intros Heq;
    apply (f_equal (λ x, PrimFloat.eqb x 0x1.3333333333333p-1)) in Heq;
    vm_compute in Heq; discriminate.
Qed.

Example decimals_total : calculateTotal decimals = 0x1.3333333333334p-1%float.
Proof. reflexivity. Qed.

Example decimals_sum : sum_of_lines decimals = 0x1.3333333333333p-1%float.
Proof. reflexivity. Qed.

(** *** Searching the cart *)

Lemma find_has_line (id : string) (lines : list CartLine) :
  has_line id lines ↔ is_Some (find (λ cartItem, _id cartItem = id) lines).
Proof.
  unfold has_line, find. split.
  - intros (l & Hin & Hid).
    destruct (list_find (λ cartItem, _id cartItem = id) lines) as [[i x]|] eqn:E.
    + eexists; reflexivity.
    + apply list_find_None in E. rewrite Forall_forall in E.
      exfalso. exact (E l Hin Hid).
  - intros [x Hx].
    destruct (list_find (λ cartItem, _id cartItem = id) lines) as [[i y]|] eqn:E;
      [|discriminate].
    apply list_find_Some in E as (Hl & Hy & _).
    exists y. split; [|done]. eapply list_elem_of_lookup_2; eauto.
Qed.

Lemma find_no_line (id : string) (lines : list CartLine) :
  (∀ l, l ∈ lines → _id l ≠ id) ↔ find (λ cartItem, _id cartItem = id) lines = None.
Proof.
  rewrite eq_None_not_Some, <- find_has_line. unfold has_line. split.
  - intros H (l & Hin & Hid). exact (H l Hin Hid).
  - intros H l Hin Hid. apply H. eauto.
Qed.

Lemma findIndex_first (id : string) (lines : list CartLine) (i : nat) :
  first_line_at id lines i ↔ findIndex (λ item, _id item = id) lines = Z.of_nat i.
Proof.
  unfold first_line_at, findIndex.
  destruct (list_find (λ item, _id item = id) lines) as [[k x]|] eqn:E.
  - apply list_find_Some in E as (Hk & Hx & Hmin). split.
    + intros [(l & Hl & Hid) Hfirst]. f_equal.
      destruct (Nat.lt_trichotomy k i) as [Hlt|[->|Hgt]]; [|done|].
      * exfalso. exact (Hfirst k x Hlt Hk Hx).
      * exfalso. exact (Hmin i l Hl Hgt Hid).
    + intros Heq. apply Nat2Z.inj in Heq as ->. split; [eauto|].
      intros j l Hj Hl. eauto.
  - apply list_find_None in E. rewrite Forall_forall in E. split.
    + intros [(l & Hl & Hid) _]. exfalso.
      apply (E l); [|done]. eapply list_elem_of_lookup_2; eauto.
    + lia.
Qed.

Lemma findIndex_has_line (id : string) (lines : list CartLine) :
  has_line id lines → ∃ i, findIndex (λ item, _id item = id) lines = Z.of_nat i.
Proof.
  intros (l & Hin & Hid). unfold findIndex.
  destruct (list_find (λ item, _id item = id) lines) as [[k x]|] eqn:E.
  - by exists k.
  - apply list_find_None in E. rewrite Forall_forall in E.
    exfalso. exact (E l Hin Hid).
Qed.

Lemma findIndex_none (id : string) (lines : list CartLine) :
  (∀ l, l ∈ lines → _id l ≠ id) ↔ findIndex (λ item, _id item = id) lines = -1.
Proof.
  unfold findIndex.
  destruct (list_find (λ item, _id item = id) lines) as [[k x]|] eqn:E.
  - apply list_find_Some in E as (Hk & Hx & _). split; [|lia].
    intros H. exfalso. apply (H x); [|done]. eapply list_elem_of_lookup_2; eauto.
  - apply list_find_None in E. rewrite Forall_forall in E. split; [done|].
    intros _ l Hin. exact (E l Hin).
Qed.

(** *** Adding to the cart *)

Lemma item_of_spread_item (item : MenuItem) q r s :
  item_of (spread_item item q r s) = item.
Proof. by destruct item. Qed.

(** The cart after [addToCart], as the source computes it. *)
Lemma addToCart_cart (w : World) (item : MenuItem) :
  cart (exec (addToCart item) w) =
  match find (λ cartItem, _id cartItem = mi_id item) (cart w) with
  | Some _ =>
      (λ cartItem,
         if bool_decide (_id cartItem = mi_id item)
         then with_quantity cartItem (quantity cartItem + 1)
         else cartItem) <$> cart w
  | None => cart w ++ [spread_item item 1 [] ""]
  end.
Proof.
  unfold addToCart, exec, bind, gets. simpl.
  by destruct (find _ (cart w)).
Qed.

(** C1: [add(item)] on a cart that has a line of the item's identity
    increments the quantity of that line by 1 and changes nothing else; on a
    cart without such a line it appends a new line of quantity 1 with an
    empty list of removed ingredients and an empty special request.  Adding
    the same item twice to an empty cart gives exactly one line, of
    quantity 2. *)
Theorem addToCart_spec (w : World) (item : MenuItem) :
  (has_line (mi_id item) (cart w) →
     length (cart (exec (addToCart item) w)) = length (cart w) ∧
     ∀ i l, cart w !! i = Some l →
       ∃ l', cart (exec (addToCart item) w) !! i = Some l' ∧
         if decide (_id l = mi_id item)
         then quantity l' = quantity l + 1 ∧ same_but_quantity l l'
         else l' = l)
  ∧ (¬ has_line (mi_id item) (cart w) →
     ∃ l', cart (exec (addToCart item) w) = cart w ++ [l'] ∧
       item_of l' = item ∧ quantity l' = 1 ∧
       removedIngredients l' = [] ∧ specialRequest l' = "")
  ∧ (cart w = [] →
     ∃ l', cart (exec (addToCart item) (exec (addToCart item) w)) = [l'] ∧
       item_of l' = item ∧ quantity l' = 2 ∧
       removedIngredients l' = [] ∧ specialRequest l' = "").
Proof.
  split; [|split].
  - intros Hhas. rewrite addToCart_cart.
    apply find_has_line in Hhas as [x ->]. split.
    + by rewrite length_fmap.
    + intros i l Hl. rewrite list_lookup_fmap, Hl. simpl.
      eexists; split; [reflexivity|].
      by case_bool_decide; case_decide.
  - intros Hno. rewrite addToCart_cart.
    assert (find (λ cartItem, _id cartItem = mi_id item) (cart w) = None) as ->.
    { apply find_no_line. intros l Hin Hid. apply Hno. by exists l. }
    eexists; split; [reflexivity|].
    by rewrite item_of_spread_item.
  - intros Hempty. rewrite !addToCart_cart, Hempty. simpl.
    unfold find. simpl. rewrite decide_True by done. simpl.
    rewrite bool_decide_eq_true_2 by done.
    eexists; split; [reflexivity|].
    by destruct item.
Qed.

Lemma shopping_has_burger : has_line (mi_id burger) (cart shopping).
Proof.
  exists (spread_item burger 2 [] ""). split; [|reflexivity].
  vm_compute. constructor.
Qed.

Lemma addToCart_spec_witness :
  has_line (mi_id burger) (cart shopping) ∧
  length (cart (exec (addToCart burger) shopping)) = length (cart shopping).
Proof.
  split; [exact shopping_has_burger|].
  exact (proj1 (proj1 (addToCart_spec shopping burger) shopping_has_burger)).
Defined.

(** *** Changing a quantity *)

Lemma updateQuantity_cart (w : World) (itemId : string) (newQuantity : Z) :
  1 ≤ newQuantity →
  cart (exec (updateQuantity itemId newQuantity) w) =
  (λ item, if bool_decide (_id item = itemId)
           then with_quantity item newQuantity else item) <$> cart w.
Proof.
  intros Hq. unfold updateQuantity.
  rewrite bool_decide_eq_false_2 by lia. reflexivity.
Qed.

(** C3: [update-quantity(itemId, newQuantity)] leaves everything unchanged
    when [newQuantity < 1]; otherwise it sets the quantity of the line of
    identity [itemId] to [newQuantity] and leaves the other fields of that
    line and all other lines as they were. *)
Theorem updateQuantity_spec (w : World) (itemId : string) (newQuantity : Z) :
  (newQuantity < 1 → exec (updateQuantity itemId newQuantity) w = w)
  ∧ (1 ≤ newQuantity →
     length (cart (exec (updateQuantity itemId newQuantity) w)) = length (cart w) ∧
     ∀ i l, cart w !! i = Some l →
       ∃ l', cart (exec (updateQuantity itemId newQuantity) w) !! i = Some l' ∧
         if decide (_id l = itemId)
         then quantity l' = newQuantity ∧ same_but_quantity l l'
         else l' = l).
Proof.
  split.
  - intros Hlt. unfold updateQuantity.
    by rewrite bool_decide_eq_true_2.
  - intros Hge. rewrite updateQuantity_cart by done. split.
    + by rewrite length_fmap.
    + intros i l Hl. rewrite list_lookup_fmap, Hl. simpl.
      eexists; split; [reflexivity|].
      by case_bool_decide; case_decide.
Qed.

Lemma updateQuantity_spec_witness :
  exec (updateQuantity "m1" 0) shopping = shopping ∧
  length (cart (exec (updateQuantity "m1" 5) shopping)) = length (cart shopping).
Proof.
  split.
  - apply (proj1 (updateQuantity_spec shopping "m1" 0)). lia.
  - apply (proj2 (updateQuantity_spec shopping "m1" 5)). lia.
Defined.

(** *** Adding a customized item *)

Lemma imap_replace {A} (l : list A) (i : nat) (c : A) :
  imap (λ index x, if bool_decide (Z.of_nat index = Z.of_nat i) then c else x) l
  = <[i:=c]> l.
Proof.
  apply list_eq. intros j. rewrite list_lookup_imap.
  destruct (decide (i = j)) as [->|Hne].
  - destruct (l !! j) as [x|] eqn:E; simpl.
    + rewrite bool_decide_eq_true_2 by done.
      symmetry. apply list_lookup_insert_eq. by eapply lookup_lt_Some.
    + symmetry. apply lookup_ge_None. rewrite length_insert.
      by apply lookup_ge_None.
  - rewrite list_lookup_insert_ne by done.
    destruct (l !! j); simpl; [|done].
    rewrite bool_decide_eq_false_2; [done|lia].
Qed.

(** The cart after [addCustomizedToCart], as the source computes it. *)
Lemma addCustomizedToCart_cart (w : World) (item : MenuItem) :
  customizingItem w = Some item →
  let customizedItem :=
    spread_item item 1 (removedIngredientsInput w) (specialRequestInput w) in
  let existingIndex := findIndex (λ l, _id l = mi_id item) (cart w) in
  cart (exec addCustomizedToCart w) =
  if bool_decide (0 ≤ existingIndex)
  then imap (λ index l, if bool_decide (Z.of_nat index = existingIndex)
                        then customizedItem else l) (cart w)
  else cart w ++ [customizedItem].
Proof.
  intros Hc. unfold addCustomizedToCart, exec, bind, gets. simpl.
  rewrite Hc. simpl. by case_bool_decide.
Qed.

(** C2: [customize-and-add] on a cart that has a line of the item's
    identity replaces that line, in place, by a line of the item with the
    given customization and quantity 1, and adds no line; on a cart without
    such a line it appends that line. *)
Theorem addCustomizedToCart_spec (w : World) (item : MenuItem)
    (removed : list string) (request : string) :
  customizingItem w = Some item →
  removedIngredientsInput w = removed →
  specialRequestInput w = request →
  ∃ line,
    (item_of line = item ∧ quantity line = 1 ∧
     removedIngredients line = removed ∧ specialRequest line = request)
    ∧ (has_line (mi_id item) (cart w) →
       length (cart (exec addCustomizedToCart w)) = length (cart w) ∧
       ∃ i, first_line_at (mi_id item) (cart w) i ∧
            cart (exec addCustomizedToCart w) = <[i:=line]> (cart w))
    ∧ (¬ has_line (mi_id item) (cart w) →
       cart (exec addCustomizedToCart w) = cart w ++ [line]).
Proof.
  intros Hc <- <-.
  exists (spread_item item 1 (removedIngredientsInput w) (specialRequestInput w)).
  split; [by rewrite item_of_spread_item|].
  rewrite (addCustomizedToCart_cart w item Hc). simpl. split.
  - intros Hhas. apply findIndex_has_line in Hhas as [i Hi].
    rewrite Hi. rewrite bool_decide_eq_true_2 by lia. rewrite imap_replace.
    split; [by rewrite length_insert|].
    exists i. split; [|done]. by apply findIndex_first.
  - intros Hno.
    assert (findIndex (λ l, _id l = mi_id item) (cart w) = -1) as ->.
    { apply findIndex_none. intros l Hin Hid. apply Hno. by exists l. }
    by rewrite bool_decide_eq_false_2 by lia.
Qed.

Lemma addCustomizedToCart_spec_witness :
  ∃ line,
    (item_of line = burger ∧ quantity line = 1 ∧
     removedIngredients line = ["onion"] ∧ specialRequest line = "no salt")
    ∧ (has_line (mi_id burger) (cart customizing) →
       length (cart (exec addCustomizedToCart customizing)) = length (cart customizing) ∧
       ∃ i, first_line_at (mi_id burger) (cart customizing) i ∧
            cart (exec addCustomizedToCart customizing) = <[i:=line]> (cart customizing))
    ∧ (¬ has_line (mi_id burger) (cart customizing) →
       cart (exec addCustomizedToCart customizing) = cart customizing ++ [line]).
Proof.
  apply (addCustomizedToCart_spec customizing burger ["onion"] "no salt");
    reflexivity.
Defined.

(** *** Placing an order *)

(** Unfolding of the monad and of the effects, for proofs by cases. *)
Ltac run :=
  cbv beta iota zeta delta
    [api_post api_get localStorage_removeItem localStorage_getItem
     toast_error toast_success navigate console_error await property_of
     setLocalStorage setCart setMenuItems setIsPlacingOrder
     setCustomizingItem setRemovedIngredients setSpecialRequest emit
     exec completion try_finally try_catch bind gets modify ret throw
     fst snd] in *.

Ltac by_cases := repeat (case_match; simpl in *; simplify_eq); try done.

Lemma bind_gets {A B} (f : World → A) (k : A → M B) (w : World) :
  (x <- gets f ;; k x) w = k (f w) w.
Proof. reflexivity. Qed.

(** Without a user, [placeOrder] only shows an error and goes to the login
    page. *)
Lemma placeOrder_unauthenticated (srv : Server) (w : World) :
  isAuthenticated w = false →
  placeOrder srv w =
  (toast_error "Please login to place an order" ;;; navigate "/login") w.
Proof.
  intros Hauth. unfold placeOrder. by rewrite bind_gets, Hauth.
Qed.

(** With a user and no cart, it only shows an error. *)
Lemma placeOrder_empty_cart (srv : Server) (w : World) :
  isAuthenticated w = true → cart w = [] →
  placeOrder srv w = toast_error "Your cart is empty" w.
Proof.
  intros Hauth Hempty. unfold placeOrder. rewrite bind_gets, Hauth.
  cbn [negb]. by rewrite bind_gets, Hempty.
Qed.

(** With a user and a cart, [placeOrder] sets the busy flag, runs its
    [try] block, its [catch] block on a throw, and clears the flag. *)
Lemma placeOrder_submits (srv : Server) (w : World) :
  isAuthenticated w = true → cart w ≠ [] →
  placeOrder srv w =
  try_finally
    (try_catch (placeOrder_try srv (cart w)) (placeOrder_catch srv (cart w)))
    (setIsPlacingOrder false)
    (exec (setIsPlacingOrder true) w).
Proof.
  intros Hauth Hne. unfold placeOrder. rewrite bind_gets, Hauth.
  cbn [negb]. rewrite bind_gets.
  rewrite bool_decide_eq_false_2; [done|]. by destruct (cart w).
Qed.

Lemma placeOrder_submits_exec (srv : Server) (w : World) :
  isAuthenticated w = true → cart w ≠ [] →
  exec (placeOrder srv) w =
  exec (try_finally
          (try_catch (placeOrder_try srv (cart w)) (placeOrder_catch srv (cart w)))
          (setIsPlacingOrder false))
       (exec (setIsPlacingOrder true) w).
Proof.
  intros Hauth Hne. unfold exec at 1 2. by rewrite placeOrder_submits.
Qed.

(** The [try] block sends one request and, by the reply, either finishes
    the order or throws. *)
Lemma placeOrder_try_run (srv : Server) (lines : list CartLine) (w : World) :
  let request :=
    EPost "/orders" (orderData lines) (authorization (localStorage w !! "token")) in
  placeOrder_try srv lines w =
  match post_orders srv (orderData lines) (authorization (localStorage w !! "token")) with
  | Fulfilled (Some d) =>
      if success d then
        (Normal tt,
         exec (emit request ;;;
               toast_success "Order placed successfully!" ;;;
               setCart [] ;;;
               navigate ("/orders/" +:+ render "undefined" (orderId d))) w)
      else
        (Thrown (Error (or_default (message d) "Failed to place order")),
         exec (emit request) w)
  | Fulfilled None =>
      (Thrown (TypeError "Cannot read properties of undefined (reading 'success')"),
       exec (emit request) w)
  | Rejected e => (Thrown e, exec (emit request) w)
  end.
Proof.
  unfold placeOrder_try. run. cbn -[orderData authorization].
  destruct (post_orders _ _ _) as [[d|]|e]; [|done..].
  cbn -[orderData authorization]. by destruct (success d).
Qed.

(** The [catch] block never touches the cart. *)
Lemma placeOrder_catch_cart (srv : Server) (lines : list CartLine)
    (e : JsError) (w : World) :
  cart (exec (placeOrder_catch srv lines e) w) = cart w.
Proof.
  destruct w as [mi c busy ci sr ri auth store tr].
  unfold placeOrder_catch. run. simpl. by_cases.
Qed.

(** The button it may show captures the cart it was given. *)
Lemma placeOrder_catch_trace (srv : Server) (lines : list CartLine)
    (e : JsError) (w : World) :
  ∃ events, trace (exec (placeOrder_catch srv lines e) w) = trace w ++ events
            ∧ Forall (captures_only lines) events.
Proof.
  destruct w as [mi c busy ci sr ri auth store tr].
  unfold placeOrder_catch. run. simpl.
  by_cases; simpl; rewrite <- ?(assoc_L (++)); simpl;
    eexists; (split; [reflexivity|]); by repeat constructor.
Qed.

(** On a 401 it removes the token and goes to the login page. *)
Lemma placeOrder_catch_401 (srv : Server) (lines : list CartLine)
    (e : JsError) (r : ErrorResponse) (w : World) :
  error_response e = Some r → status r = 401 →
  placeOrder_catch srv lines e w =
  (Normal tt,
   exec (console_error "Error placing order:" e ;;;
         toast_error "Session expired. Please login again" ;;;
         localStorage_removeItem "token" ;;;
         navigate "/login") w).
Proof.
  intros He Hs. unfold placeOrder_catch. run. simpl.
  rewrite He, Hs. reflexivity.
Qed.

(** The [finally] block only clears the busy flag. *)
Lemma try_finally_setIsPlacingOrder {A} (m : M A) (b : bool) (w : World) :
  cart (exec (try_finally m (setIsPlacingOrder b)) w) = cart (exec m w) ∧
  trace (exec (try_finally m (setIsPlacingOrder b)) w) = trace (exec m w) ∧
  localStorage (exec (try_finally m (setIsPlacingOrder b)) w)
  = localStorage (exec m w) ∧
  completion (try_finally m (setIsPlacingOrder b)) w = completion m w.
Proof. run. by destruct (m w) as [[a|e] w']. Qed.

Lemma exec_try_catch {A} (m : M A) (handler : JsError → M A) (w : World) :
  exec (try_catch m handler) w =
  match m w with
  | (Normal _, w') => w'
  | (Thrown e, w') => exec (handler e) w'
  end.
Proof. run. by destruct (m w) as [[a|e] w']. Qed.

(** The [try] and [catch] blocks together empty the cart exactly when the
    response reports success. *)
Lemma placeOrder_blocks_cart (srv : Server) (lines : list CartLine) (w : World) :
  cart (exec (try_catch (placeOrder_try srv lines) (placeOrder_catch srv lines)) w) =
  if succeeded (post_orders srv (orderData lines)
                  (authorization (localStorage w !! "token")))
  then [] else cart w.
Proof.
  rewrite exec_try_catch, placeOrder_try_run. unfold succeeded.
  destruct (post_orders srv _ _) as [[d|]|e].
  - destruct (success d); [done|]. by rewrite placeOrder_catch_cart.
  - by rewrite placeOrder_catch_cart.
  - by rewrite placeOrder_catch_cart.
Qed.

(** Every button they show captures the cart they were given. *)
Lemma placeOrder_blocks_trace (srv : Server) (lines : list CartLine) (w : World) :
  ∃ events,
    trace (exec (try_catch (placeOrder_try srv lines) (placeOrder_catch srv lines)) w)
    = trace w ++ events ∧ Forall (captures_only lines) events.
Proof.
  rewrite exec_try_catch, placeOrder_try_run.
  set (request := EPost _ _ _).
  assert (∀ e, ∃ events,
            trace (exec (placeOrder_catch srv lines e) (exec (emit request) w))
            = trace w ++ events ∧ Forall (captures_only lines) events) as Hthrown.
  { intros e.
    destruct (placeOrder_catch_trace srv lines e (exec (emit request) w))
      as (events & -> & Hevents).
    exists (request :: events). split; [|by constructor].
    simpl. by rewrite <- (assoc_L (++)). }
  destruct (post_orders srv _ _) as [[d|]|e]; [|apply Hthrown..].
  destruct (success d); [|apply Hthrown].
  eexists. split; [simpl; by rewrite <- !(assoc_L (++))|].
  by repeat constructor.
Qed.

(** C5: [submit-order] fails locally, with an error message and without any
    request, when the user is not authenticated (whatever the cart) or the
    cart is empty (whatever the authentication); the cart is left as it was. *)
Theorem placeOrder_fails_locally (srv : Server) (w : World) :
  isAuthenticated w = false ∨ cart w = [] →
  cart (exec (placeOrder srv) w) = cart w ∧
  ∃ events,
    trace (exec (placeOrder srv) w) = trace w ++ events ∧
    Forall (λ e, is_request e = false) events ∧
    ∃ msg, EToast (ToastError msg) ∈ events.
Proof.
  intros Hlocal. unfold exec.
  destruct (isAuthenticated w) eqn:Hauth.
  - destruct Hlocal as [?|Hempty]; [done|].
    rewrite placeOrder_empty_cart by done. split; [done|].
    eexists. split; [reflexivity|]. split; [by repeat constructor|].
    eexists. constructor.
  - rewrite placeOrder_unauthenticated by done. split; [done|].
    eexists. split; [simpl; by rewrite <- (assoc_L (++))|].
    split; [by repeat constructor|].
    eexists. constructor.
Qed.

Lemma placeOrder_fails_locally_witness :
  cart (exec (placeOrder accepting) fresh) = cart fresh ∧
  ∃ events,
    trace (exec (placeOrder accepting) fresh) = trace fresh ++ events ∧
    Forall (λ e, is_request e = false) events ∧
    ∃ msg, EToast (ToastError msg) ∈ events.
Proof.
  apply (placeOrder_fails_locally accepting fresh). right. reflexivity.
Defined.

(** C8: for a user with a cart, [submit-order] clears the cart when the
    response reports success, and on every other outcome (a rejection with
    any status or none, a response without success or without a body) the
    cart at the end is the cart at the start. *)
Theorem placeOrder_cart_atomic (srv : Server) (w : World) :
  isAuthenticated w = true → cart w ≠ [] →
  cart (exec (placeOrder srv) w) =
  if succeeded (reply_to srv w) then [] else cart w.
Proof.
  intros Hauth Hne. rewrite placeOrder_submits_exec by done.
  set (w1 := exec (setIsPlacingOrder true) w).
  destruct (try_finally_setIsPlacingOrder
              (try_catch (placeOrder_try srv (cart w)) (placeOrder_catch srv (cart w)))
              false w1) as (-> & _).
  by rewrite placeOrder_blocks_cart.
Qed.

Lemma placeOrder_cart_atomic_witness :
  cart (exec (placeOrder expired) shopping) = cart shopping.
Proof.
  apply (placeOrder_cart_atomic expired shopping); [reflexivity|].
  vm_compute. discriminate.
Defined.

(** C6, at the code: for a user with a cart, when the response of
    [POST /orders] reports success, [submit-order] completes normally, the
    cart is empty, one request was sent, and the last thing it does is
    navigate to the location [/orders/<orderId>] of the [orderId] of the
    response.  The route table of the application has the paths listed
    below and none under [/orders/]: there is no order-detail view at the
    location it navigates to. *)
Theorem placeOrder_success_unrouted (srv : Server) (w : World) (d : ResponseData)
    (oid : string) :
  isAuthenticated w = true → cart w ≠ [] →
  reply_to srv w = Fulfilled (Some d) →
  success d = true → orderId d = Some oid →
  (completion (placeOrder srv) w = Normal tt ∧
   cart (exec (placeOrder srv) w) = [] ∧
   trace (exec (placeOrder srv) w) =
     trace w ++
     [EPost "/orders" (orderData (cart w)) (authorization (localStorage w !! "token"));
      EToast (ToastSuccess "Order placed successfully!");
      ENavigate ("/orders/" +:+ oid)] ∧
   last (trace (exec (placeOrder srv) w)) = Some (ENavigate ("/orders/" +:+ oid))) ∧
  (route_paths = ["/"; "/menu"; "/orders"; "/feedback/:orderId";
                  "/chef-dashboard"; "/login"; "/register"] ∧
   Forall (λ path, String.prefix "/orders/" path = false) route_paths ∧
   "/orders/" +:+ oid ∉ route_paths).
Proof.
  intros Hauth Hne Hreply Hsuccess Hoid. split.
  - unfold reply_to in Hreply.
    unfold exec, completion. rewrite placeOrder_submits by done.
    unfold try_finally, try_catch. rewrite placeOrder_try_run.
    change (localStorage (exec (setIsPlacingOrder true) w)) with (localStorage w).
    rewrite Hreply, Hsuccess, Hoid.
    clear. destruct w as [mi c busy ci sr ri auth store tr].
    cbn -[orderData authorization].
    rewrite <- !(assoc_L (++)). cbn -[orderData authorization].
    repeat split. by rewrite last_app.
  - split; [reflexivity|]. split; [by repeat constructor|].
    intros Hin. unfold route_paths in Hin. simpl in Hin.
    repeat (apply elem_of_cons in Hin as [Hin|Hin]; [discriminate Hin|]).
    by apply not_elem_of_nil in Hin.
Qed.

Lemma placeOrder_success_unrouted_witness :
  (completion (placeOrder accepting) shopping = Normal tt ∧
   cart (exec (placeOrder accepting) shopping) = [] ∧
   trace (exec (placeOrder accepting) shopping) =
     trace shopping ++
     [EPost "/orders" (orderData (cart shopping))
        (authorization (localStorage shopping !! "token"));
      EToast (ToastSuccess "Order placed successfully!");
      ENavigate ("/orders/" +:+ "o42")] ∧
   last (trace (exec (placeOrder accepting) shopping))
   = Some (ENavigate ("/orders/" +:+ "o42"))) ∧
  (route_paths = ["/"; "/menu"; "/orders"; "/feedback/:orderId";
                  "/chef-dashboard"; "/login"; "/register"] ∧
   Forall (λ path, String.prefix "/orders/" path = false) route_paths ∧
   "/orders/" +:+ "o42" ∉ route_paths).
Proof.
  apply (placeOrder_success_unrouted accepting shopping
           {| success := true; orderId := Some "o42"; message := None |} "o42");
    try reflexivity.
  vm_compute. discriminate.
Defined.

(** C7: for a user with a cart, when the order is rejected with HTTP status
    401, [submit-order] removes the token from the browser storage and goes
    to the login page. *)
Theorem placeOrder_unauthorized (srv : Server) (w : World) (e : JsError)
    (r : ErrorResponse) :
  isAuthenticated w = true → cart w ≠ [] →
  reply_to srv w = Rejected e →
  error_response e = Some r → status r = 401 →
  localStorage (exec (placeOrder srv) w) = delete "token" (localStorage w) ∧
  localStorage (exec (placeOrder srv) w) !! "token" = None ∧
  trace (exec (placeOrder srv) w) =
    trace w ++
    [EPost "/orders" (orderData (cart w)) (authorization (localStorage w !! "token"));
     EConsoleError "Error placing order:" e;
     EToast (ToastError "Session expired. Please login again");
     ENavigate "/login"] ∧
  last (trace (exec (placeOrder srv) w)) = Some (ENavigate "/login").
Proof.
  intros Hauth Hne Hreply He Hs. unfold reply_to in Hreply.
  unfold exec. rewrite placeOrder_submits by done.
  unfold try_finally, try_catch. rewrite placeOrder_try_run.
  change (localStorage (exec (setIsPlacingOrder true) w)) with (localStorage w).
  rewrite Hreply, (placeOrder_catch_401 srv (cart w) e r) by done.
  clear. destruct w as [mi c busy ci sr ri auth store tr].
  cbn -[orderData authorization].
  rewrite <- !(assoc_L (++)). cbn -[orderData authorization].
  repeat split.
  - apply lookup_delete_eq.
  - by rewrite last_app.
Qed.

Lemma placeOrder_unauthorized_witness :
  localStorage (exec (placeOrder expired) shopping)
  = delete "token" (localStorage shopping) ∧
  localStorage (exec (placeOrder expired) shopping) !! "token" = None ∧
  trace (exec (placeOrder expired) shopping) =
    trace shopping ++
    [EPost "/orders" (orderData (cart shopping))
       (authorization (localStorage shopping !! "token"));
     EConsoleError "Error placing order:"
       (HttpError "Request failed with status code 401"
          (Some {| status := 401; data := None |}));
     EToast (ToastError "Session expired. Please login again");
     ENavigate "/login"] ∧
  last (trace (exec (placeOrder expired) shopping)) = Some (ENavigate "/login").
Proof.
  apply (placeOrder_unauthorized expired shopping
           (HttpError "Request failed with status code 401"
              (Some {| status := 401; data := None |}))
           {| status := 401; data := None |});
    try reflexivity.
  vm_compute. discriminate.
Defined.

(** *** What each handler does to the cart and to the trace *)

Lemma with_quantity_same (l : CartLine) : with_quantity l (quantity l) = l.
Proof. by destruct l. Qed.

Lemma findIndex_cases {A} (P : A → Prop) `{∀ x, Decision (P x)} (l : list A) :
  findIndex P l = -1 ∨ ∃ i : nat, findIndex P l = Z.of_nat i.
Proof.
  unfold findIndex. destruct (list_find P l) as [[i x]|]; [right|left]; eauto.
Qed.

Lemma updateQuantity_noop (w : World) (itemId : string) (newQuantity : Z) :
  newQuantity < 1 → exec (updateQuantity itemId newQuantity) w = w.
Proof. intros Hlt. unfold updateQuantity. by rewrite bool_decide_eq_true_2. Qed.

Lemma fetchMenu_cart (srv : Server) (w : World) :
  cart (exec (fetchMenu srv) w) = cart w.
Proof.
  destruct w as [mi c busy ci sr ri auth store tr].
  unfold fetchMenu. run. simpl. by_cases.
Qed.

Lemma addCustomizedToCart_idle (w : World) :
  customizingItem w = None → exec addCustomizedToCart w = w.
Proof.
  intros Hc. unfold addCustomizedToCart, exec. rewrite bind_gets, Hc.
  reflexivity.
Qed.

(** [placeOrder] leaves the cart or empties it. *)
Lemma placeOrder_cart_cases (srv : Server) (w : World) :
  cart (exec (placeOrder srv) w) = cart w ∨ cart (exec (placeOrder srv) w) = [].
Proof.
  destruct (isAuthenticated w) eqn:Hauth.
  - destruct (decide (cart w = [])) as [Hempty|Hne].
    + left. unfold exec. by rewrite placeOrder_empty_cart.
    + rewrite placeOrder_submits_exec by done.
      set (w1 := exec (setIsPlacingOrder true) w).
      destruct (try_finally_setIsPlacingOrder
                  (try_catch (placeOrder_try srv (cart w))
                     (placeOrder_catch srv (cart w))) false w1) as (-> & _).
      rewrite placeOrder_blocks_cart.
      destruct (succeeded _); [by right|by left].
  - left. unfold exec. by rewrite placeOrder_unauthenticated.
Qed.

(** Closes a goal [∃ events, trace w' = trace w ++ events ∧ Forall _ events]
    once [w'] is computed. *)
Ltac frame_trace :=
  simpl; rewrite <- ?(assoc_L (++)); simpl;
  first [ by (exists []; split; [rewrite (right_id_L [] (++))|constructor])
        | by (eexists; split; [reflexivity|repeat constructor]) ].

Lemma placeOrder_trace (srv : Server) (w : World) :
  ∃ events, trace (exec (placeOrder srv) w) = trace w ++ events
            ∧ Forall (captures_only (cart w)) events.
Proof.
  destruct (isAuthenticated w) eqn:Hauth.
  - destruct (decide (cart w = [])) as [Hempty|Hne].
    + unfold exec. rewrite placeOrder_empty_cart by done. frame_trace.
    + rewrite placeOrder_submits_exec by done.
      set (w1 := exec (setIsPlacingOrder true) w).
      destruct (try_finally_setIsPlacingOrder
                  (try_catch (placeOrder_try srv (cart w))
                     (placeOrder_catch srv (cart w))) false w1) as (_ & -> & _).
      apply (placeOrder_blocks_trace srv (cart w) w1).
  - unfold exec. rewrite placeOrder_unauthenticated by done. frame_trace.
Qed.

(** Every handler only adds events, and a button it shows captures the cart
    the handler started from. *)
Lemma step_trace (w w' : World) :
  step w w' →
  ∃ events, trace w' = trace w ++ events ∧ Forall (captures_only (cart w)) events.
Proof.
  intros Hstep.
  destruct Hstep as [w srv|w item|w item|w ingredient|w text|w|w|w itemId
                    |w itemId newQuantity|w srv|w msg captured Hshown].
  - destruct w as [mi c busy ci sr ri auth store tr].
    unfold fetchMenu. run. simpl. by_cases; frame_trace.
  - destruct w as [mi c busy ci sr ri auth store tr].
    unfold addToCart. run. simpl. by_cases; frame_trace.
  - frame_trace.
  - frame_trace.
  - frame_trace.
  - frame_trace.
  - destruct w as [mi c busy ci sr ri auth store tr].
    unfold addCustomizedToCart. run. simpl. by_cases; frame_trace.
  - frame_trace.
  - destruct w as [mi c busy ci sr ri auth store tr].
    unfold updateQuantity. run. simpl. by_cases; frame_trace.
  - apply placeOrder_trace.
  - frame_trace.
Qed.

(** *** Invariants of the cart *)

Lemma captured_carts_elem (msg : string) (captured : list CartLine)
    (events : list Event) :
  EToast (ToastUnavailable msg captured) ∈ events →
  captured ∈ captured_carts events.
Proof.
  intros Hin. unfold captured_carts. apply list_elem_of_omap.
  by exists (EToast (ToastUnavailable msg captured)).
Qed.

Section Invariant.
Context (P : list CartLine → Prop) `{!CartInvariant P}.

Lemma captured_carts_extend (lines : list CartLine) (events more : list Event) :
  P lines → Forall (captures_only lines) more →
  Forall P (captured_carts events) →
  Forall P (captured_carts (events ++ more)).
Proof.
  intros Hlines Hmore Hevents. unfold captured_carts.
  rewrite omap_app. apply Forall_app. split; [done|].
  induction Hmore as [|e more He _ IH]; simpl; [constructor|].
  destruct e as [[msg|msg|msg captured]| | | |]; simpl in *; try done.
  constructor; [by subst|done].
Qed.

Lemma addToCart_keeps (w : World) (item : MenuItem) :
  P (cart w) → P (cart (exec (addToCart item) w)).
Proof.
  intros HP. rewrite addToCart_cart.
  destruct (find _ (cart w)) as [x|] eqn:Hfind.
  - erewrite list_fmap_ext.
    + apply (invariant_requantify
               (λ l, if bool_decide (_id l = mi_id item)
                     then quantity l + 1 else quantity l)); [|done].
      intros l Hl. case_bool_decide; lia.
    + intros i l _. simpl. case_bool_decide; [done|].
      by rewrite with_quantity_same.
  - apply invariant_append; [|done]. by apply find_no_line.
Qed.

Lemma addCustomizedToCart_keeps (w : World) :
  P (cart w) → P (cart (exec addCustomizedToCart w)).
Proof.
  intros HP. destruct (customizingItem w) as [item|] eqn:Hc.
  - rewrite (addCustomizedToCart_cart w item Hc). simpl.
    destruct (findIndex_cases (λ l, _id l = mi_id item) (cart w))
      as [Hnone|[i Hi]].
    + rewrite Hnone. rewrite bool_decide_eq_false_2 by lia.
      apply invariant_append; [|done]. by apply findIndex_none.
    + rewrite Hi. rewrite bool_decide_eq_true_2 by lia.
      rewrite imap_replace.
      apply invariant_replace; [|done]. by apply findIndex_first.
  - by rewrite addCustomizedToCart_idle.
Qed.

Lemma removeFromCart_keeps (w : World) (itemId : string) :
  P (cart w) → P (cart (exec (removeFromCart itemId) w)).
Proof. intros HP. by apply invariant_filter. Qed.

Lemma updateQuantity_keeps (w : World) (itemId : string) (newQuantity : Z) :
  P (cart w) → P (cart (exec (updateQuantity itemId newQuantity) w)).
Proof.
  intros HP. destruct (decide (newQuantity < 1)) as [Hlt|Hge].
  - by rewrite updateQuantity_noop.
  - rewrite updateQuantity_cart by lia.
    erewrite list_fmap_ext.
    + apply (invariant_requantify
               (λ l, if bool_decide (_id l = itemId)
                     then newQuantity else quantity l)); [|done].
      intros l Hl. case_bool_decide; lia.
    + intros i l _. simpl. case_bool_decide; [done|].
      by rewrite with_quantity_same.
Qed.

Lemma operation_keeps (op : CartOperation) (w : World) :
  P (cart w) → P (cart (exec (run_operation op) w)).
Proof.
  destruct op as [item| |itemId newQuantity|itemId]; simpl.
  - apply addToCart_keeps.
  - apply addCustomizedToCart_keeps.
  - apply updateQuantity_keeps.
  - apply removeFromCart_keeps.
Qed.

Lemma step_keeps_cart (w w' : World) :
  step w w' → history_ok P w → P (cart w').
Proof.
  intros Hstep [HP Hcaptured].
  destruct Hstep as [w srv|w item|w item|w ingredient|w text|w|w|w itemId
                    |w itemId newQuantity|w srv|w msg captured Hshown];
    try done.
  - by rewrite fetchMenu_cart.
  - by apply addToCart_keeps.
  - by apply addCustomizedToCart_keeps.
  - by apply removeFromCart_keeps.
  - by apply updateQuantity_keeps.
  - destruct (placeOrder_cart_cases srv w) as [->| ->];
      [done|apply invariant_nil].
  - apply invariant_filter.
    rewrite Forall_forall in Hcaptured. apply Hcaptured.
    by eapply captured_carts_elem.
Qed.

Lemma step_keeps (w w' : World) :
  step w w' → history_ok P w → history_ok P w'.
Proof.
  intros Hstep Hok. split; [by eapply step_keeps_cart|].
  destruct (step_trace w w' Hstep) as (events & -> & Hevents).
  destruct Hok as [HP Hcaptured]. by eapply captured_carts_extend.
Qed.

Lemma reachable_history_ok (w : World) : reachable w → history_ok P w.
Proof.
  intros (authenticated & storage & Hsteps).
  revert w Hsteps. apply rtc_ind_r.
  - split; [apply invariant_nil|constructor].
  - intros w w' _ Hstep IH. by eapply step_keeps.
Qed.
End Invariant.

Global Instance quantities_positive_invariant_class :
  CartInvariant quantities_positive.
Proof.
  unfold quantities_positive. split.
  - constructor.
  - intros Q ? lines. rewrite !Forall_forall. intros Hall l Hin.
    apply list_elem_of_filter in Hin as [_ Hin]. by apply Hall.
  - intros q lines Hq Hall. apply Forall_fmap.
    eapply Forall_impl; [exact Hall|]. intros l Hl. simpl. by apply Hq.
  - intros item removed request lines _ Hall.
    apply Forall_app. split; [done|]. by apply Forall_singleton.
  - intros item removed request lines i _ Hall. by apply Forall_insert.
Qed.

Global Instance identities_distinct_invariant_class :
  CartInvariant identities_distinct.
Proof.
  unfold identities_distinct. split.
  - constructor.
  - intros Q ? lines Hdistinct.
    apply (sublist_NoDup _ (_id <$> lines)); [done|].
    apply fmap_sublist, sublist_filter.
  - intros q lines _ Hdistinct.
    rewrite <- list_fmap_compose. by erewrite list_fmap_ext.
  - intros item removed request lines Hfresh Hdistinct.
    rewrite fmap_app. apply NoDup_app. split; [done|]. split.
    + intros id Hin Hnew. apply list_elem_of_singleton in Hnew as ->.
      apply list_elem_of_fmap in Hin as (l & Hid & Hl).
      by apply (Hfresh l Hl).
    + apply NoDup_singleton.
  - intros item removed request lines i [(l & Hl & Hid) _] Hdistinct.
    rewrite list_fmap_insert, list_insert_id; [done|].
    rewrite list_lookup_fmap, Hl. simpl. by rewrite Hid.
Qed.

Lemma shopping_reachable : reachable shopping.
Proof.
  exists true, {["token" := "t0k3n"]}. unfold shopping, fresh.
  eapply rtc_l; [apply (step_addToCart _ burger)|].
  eapply rtc_l; [apply (step_addToCart _ burger)|].
  eapply rtc_l; [apply (step_addToCart _ salad)|].
  apply rtc_refl.
Qed.

(** C9: the quantity of every cart line is at least 1.  Each operation of
    the cart (add, customize-and-add, update-quantity, remove) keeps this,
    and it holds of every cart reached from the empty cart of a fresh page. *)
Theorem quantities_positive_invariant :
  quantities_positive [] ∧
  (∀ op w, quantities_positive (cart w) →
           quantities_positive (cart (exec (run_operation op) w))) ∧
  (∀ w, reachable w → quantities_positive (cart w)).
Proof.
  split; [apply invariant_nil|]. split.
  - intros op w. apply (operation_keeps quantities_positive).
  - intros w Hw. by apply (reachable_history_ok quantities_positive w Hw).
Qed.

Lemma quantities_positive_invariant_witness :
  quantities_positive (cart shopping) ∧
  quantities_positive (cart (exec (run_operation (UpdateQuantity "m1" 0)) shopping)).
Proof.
  destruct quantities_positive_invariant as (_ & Hop & Hreach).
  pose proof (Hreach shopping shopping_reachable) as Hshopping.
  split; [exact Hshopping|]. exact (Hop _ _ Hshopping).
Defined.

(** C10: no two cart lines have the same identity.  Each operation of the
    cart (add, customize-and-add, update-quantity, remove) keeps this, and
    it holds of every cart reached from the empty cart of a fresh page. *)
Theorem identities_distinct_invariant :
  identities_distinct [] ∧
  (∀ op w, identities_distinct (cart w) →
           identities_distinct (cart (exec (run_operation op) w))) ∧
  (∀ w, reachable w → identities_distinct (cart w)).
Proof.
  split; [apply invariant_nil|]. split.
  - intros op w. apply (operation_keeps identities_distinct).
  - intros w Hw. by apply (reachable_history_ok identities_distinct w Hw).
Qed.

Lemma identities_distinct_invariant_witness :
  identities_distinct (cart shopping) ∧
  identities_distinct (cart (exec (run_operation (Add burger)) shopping)).
Proof.
  destruct identities_distinct_invariant as (_ & Hop & Hreach).
  pose proof (Hreach shopping shopping_reachable) as Hshopping.
  split; [exact Hshopping|]. exact (Hop _ _ Hshopping).
Defined.

(** ** Further properties of the cart *)

Lemma filter_id_Forall {A} (Q : A → Prop) `{∀ x, Decision (Q x)} (l : list A) :
  Forall Q l → filter Q l = l.
Proof.
  induction 1 as [|x l Hx _ IH]; [done|].
  by rewrite filter_cons_True, IH.
Qed.

Lemma removeFromCart_cart (w : World) (itemId : string) :
  cart (exec (removeFromCart itemId) w) = filter (λ item, _id item ≠ itemId) (cart w).
Proof. reflexivity. Qed.

(** In a cart of distinct identities, a line is the only one of its
    identity. *)
Lemma distinct_same_line (lines : list CartLine) (l l' : CartLine) :
  identities_distinct lines → l ∈ lines → l' ∈ lines → _id l = _id l' → l = l'.
Proof.
  unfold identities_distinct.
  induction lines as [|x rest IH]; intros Hdistinct Hl Hl' Hid.
  - by apply not_elem_of_nil in Hl.
  - rewrite fmap_cons in Hdistinct. apply NoDup_cons in Hdistinct as [Hx Hrest].
    assert (∀ y, y ∈ rest → _id y ≠ _id x) as Hfresh.
    { intros y Hy Heq. apply Hx. rewrite <- Heq. apply list_elem_of_fmap. eauto. }
    apply elem_of_cons in Hl as [->|Hl]; apply elem_of_cons in Hl' as [->|Hl'].
    + done.
    + exfalso. by apply (Hfresh l').
    + exfalso. by apply (Hfresh l).
    + by apply IH.
Qed.

(** X1: [remove(itemId)] keeps exactly the lines of another identity, in
    their order; afterwards the cart has no line of that identity, and a
    cart that had none is unchanged. *)
Theorem removeFromCart_spec (w : World) (itemId : string) :
  ¬ has_line itemId (cart (exec (removeFromCart itemId) w)) ∧
  (∀ l, l ∈ cart (exec (removeFromCart itemId) w) ↔ l ∈ cart w ∧ _id l ≠ itemId) ∧
  cart (exec (removeFromCart itemId) w) `sublist_of` cart w ∧
  (¬ has_line itemId (cart w) → cart (exec (removeFromCart itemId) w) = cart w).
Proof.
  rewrite removeFromCart_cart. split; [|split; [|split]].
  - intros (l & Hl & Hid). by apply list_elem_of_filter in Hl as [Hne _].
  - intros l. rewrite list_elem_of_filter. tauto.
  - apply sublist_filter.
  - intros Hno. apply filter_id_Forall, Forall_forall.
    intros l Hl Hid. apply Hno. by exists l.
Qed.

(** X2: adding an item that the cart has no line of, and then removing it,
    gives back the cart. *)
Theorem add_then_remove (w : World) (item : MenuItem) :
  ¬ has_line (mi_id item) (cart w) →
  cart (exec (removeFromCart (mi_id item)) (exec (addToCart item) w)) = cart w.
Proof.
  intros Hno. rewrite removeFromCart_cart, addToCart_cart.
  assert (find (λ cartItem, _id cartItem = mi_id item) (cart w) = None) as ->.
  { apply find_no_line. intros l Hin Hid. apply Hno. by exists l. }
  rewrite filter_app, filter_id_Forall.
  - rewrite filter_cons_False by (intros Hne; by apply Hne).
    by rewrite filter_nil, (right_id_L [] (++)).
  - apply Forall_forall. intros l Hl Hid. apply Hno. by exists l.
Qed.

Lemma shopping_distinct : identities_distinct (cart shopping).
Proof.
  unfold identities_distinct. apply (bool_decide_unpack _). by vm_compute.
Qed.

Lemma fresh_has_no_burger : ¬ has_line (mi_id burger) (cart fresh).
Proof. intros (l & Hl & _). by apply not_elem_of_nil in Hl. Qed.

Lemma add_then_remove_witness :
  cart (exec (removeFromCart (mi_id burger)) (exec (addToCart burger) fresh))
  = cart fresh.
Proof. exact (add_then_remove fresh burger fresh_has_no_burger). Defined.

(** X3: in a cart of distinct identities, the [+] button of a line (with a
    quantity that is not negative) does to the cart what [Add] does for
    the item of that line. *)
Theorem plus_agrees_with_add (w : World) (l : CartLine) (item : MenuItem) :
  identities_distinct (cart w) → l ∈ cart w → _id l = mi_id item →
  0 ≤ quantity l →
  cart (exec (updateQuantity (_id l) (quantity l + 1)) w)
  = cart (exec (addToCart item) w).
Proof.
  intros Hdistinct Hl Hid Hq.
  rewrite updateQuantity_cart by lia. rewrite addToCart_cart.
  assert (is_Some (find (λ cartItem, _id cartItem = mi_id item) (cart w)))
    as [x ->] by (apply find_has_line; by exists l).
  apply list_fmap_ext. intros i y Hy. rewrite Hid.
  case_bool_decide as Hy'; [|done].
  apply list_elem_of_lookup_2 in Hy.
  by rewrite (distinct_same_line (cart w) y l) by congruence.
Qed.

Lemma burgers_in_shopping : spread_item burger 2 [] "" ∈ cart shopping.
Proof. vm_compute. constructor. Qed.

Lemma plus_agrees_with_add_witness :
  cart (exec (updateQuantity "m1" (2 + 1)) shopping)
  = cart (exec (addToCart burger) shopping).
Proof.
  apply (plus_agrees_with_add shopping (spread_item burger 2 [] "") burger
           shopping_distinct burgers_in_shopping); [reflexivity|simpl; lia].
Defined.

(** *** The order that is sent *)

Lemma or_default_empty (s : string) : or_default (Some s) "" = s.
Proof. unfold or_default. by case_bool_decide. Qed.

(** X7: the order sent for a cart has one item per line, in the order of
    the lines, each with the identity, quantity, price and customization of
    its line, and its [totalAmount] is what adding up price times quantity
    over the items sent, from the first to the last and starting from 0,
    gives in double arithmetic. *)
Theorem orderData_projection (lines : list CartLine) :
  length (items (orderData lines)) = length lines ∧
  (∀ i l, lines !! i = Some l →
     ∃ o, items (orderData lines) !! i = Some o ∧
          oi_menuItem o = _id l ∧ oi_quantity o = quantity l ∧
          oi_price o = price l ∧
          oi_removedIngredients o = removedIngredients l ∧
          oi_specialRequest o = specialRequest l) ∧
  totalAmount (orderData lines)
  = foldl (λ total o, (total + oi_price o * number (oi_quantity o))%float)
          0%float (items (orderData lines)).
Proof.
  unfold orderData. simpl. split; [by rewrite length_fmap|]. split.
  - intros i l Hl. rewrite list_lookup_fmap, Hl.
    exists (order_item l). split_and!; try reflexivity.
    apply or_default_empty.
  - unfold calculateTotal. by rewrite foldl_fmap.
Qed.

(** X8: the order sent from any state the page can reach has items of
    distinct identities and of quantities that are at least 1. *)
Theorem reachable_order_well_formed (w : World) :
  reachable w →
  NoDup (oi_menuItem <$> items (orderData (cart w))) ∧
  Forall (λ o, 1 ≤ oi_quantity o) (items (orderData (cart w))).
Proof.
  intros Hw.
  destruct (reachable_history_ok identities_distinct w Hw) as [Hdistinct _].
  destruct (reachable_history_ok quantities_positive w Hw) as [Hpositive _].
  unfold orderData. simpl. split.
  - by rewrite <- list_fmap_compose.
  - apply Forall_fmap. by eapply Forall_impl.
Qed.

Lemma reachable_order_well_formed_witness :
  NoDup (oi_menuItem <$> items (orderData (cart shopping))) ∧
  Forall (λ o, 1 ≤ oi_quantity o) (items (orderData (cart shopping))).
Proof. exact (reachable_order_well_formed shopping shopping_reachable). Defined.

(** *** More on placing an order *)

Lemma posts_snoc (events : list Event) (e : Event) :
  posts (events ++ [e]) = posts events ++ posts [e].
Proof. unfold posts. by rewrite omap_app. Qed.

Lemma posts_app (events more : list Event) :
  posts (events ++ more) = posts events ++ posts more.
Proof. unfold posts. by rewrite omap_app. Qed.

(** The [catch] block sends no order; when it completes normally it has
    shown an error. *)
Lemma placeOrder_catch_events (srv : Server) (lines : list CartLine)
    (e : JsError) (w : World) :
  ∃ events,
    trace (exec (placeOrder_catch srv lines e) w) = trace w ++ events ∧
    posts events = [] ∧
    (completion (placeOrder_catch srv lines e) w = Normal tt →
     existsb is_error_toast events = true).
Proof.
  destruct w as [mi c busy ci sr ri auth store tr].
  unfold placeOrder_catch. run. simpl.
  by_cases; simpl; rewrite <- ?(assoc_L (++)); simpl;
    (eexists; split; [reflexivity|]; split; [reflexivity|]); done.
Qed.

Lemma completion_try_catch {A} (m : M A) (handler : JsError → M A) (w : World) :
  completion (try_catch m handler) w =
  match m w with
  | (Normal a, _) => Normal a
  | (Thrown e, w') => completion (handler e) w'
  end.
Proof. run. by destruct (m w) as [[a|e] w']. Qed.

Lemma try_finally_busy {A} (m : M A) (b : bool) (w : World) :
  isPlacingOrder (exec (try_finally m (setIsPlacingOrder b)) w) = b.
Proof. run. by destruct (m w) as [[a|e] w']. Qed.

(** The [try] and [catch] blocks send the order once, and on a reply that
    does not report success they show an error if they complete. *)
Lemma placeOrder_blocks_events (srv : Server) (lines : list CartLine) (w : World) :
  let block := try_catch (placeOrder_try srv lines) (placeOrder_catch srv lines) in
  let header := authorization (localStorage w !! "token") in
  ∃ more,
    trace (exec block w) = trace w ++ EPost "/orders" (orderData lines) header :: more ∧
    posts more = [] ∧
    (succeeded (post_orders srv (orderData lines) header) = false →
     completion block w = Normal tt → existsb is_error_toast more = true).
Proof.
  simpl. rewrite exec_try_catch, completion_try_catch, placeOrder_try_run.
  set (request := EPost _ _ _).
  assert (∀ e, ∃ more,
            trace (exec (placeOrder_catch srv lines e) (exec (emit request) w))
            = trace w ++ request :: more ∧ posts more = [] ∧
            (completion (placeOrder_catch srv lines e) (exec (emit request) w)
             = Normal tt → existsb is_error_toast more = true)) as Hthrown.
  { intros e.
    destruct (placeOrder_catch_events srv lines e (exec (emit request) w))
      as (more & -> & Hposts & Htoast).
    exists more. split; [|done]. simpl. by rewrite <- (assoc_L (++)). }
  unfold succeeded.
  destruct (post_orders srv _ _) as [[d|]|e].
  - destruct (success d).
    + eexists. split; [simpl; by rewrite <- !(assoc_L (++))|]. by split.
    + destruct (Hthrown (Error (or_default (message d) "Failed to place order")))
        as (more & ? & ? & ?). by exists more.
  - destruct (Hthrown (TypeError "Cannot read properties of undefined (reading 'success')"))
      as (more & ? & ? & ?). by exists more.
  - destruct (Hthrown e) as (more & ? & ? & ?). by exists more.
Qed.

(** X9: [placeOrder] sends the order at most once: exactly once, with the
    projection of the cart and the bearer token of the storage, when the
    user is authenticated and the cart has lines, and not at all otherwise. *)
Theorem placeOrder_posts (srv : Server) (w : World) :
  ∃ events,
    trace (exec (placeOrder srv) w) = trace w ++ events ∧
    posts events =
    if isAuthenticated w && negb (bool_decide (cart w = []))
    then [("/orders", orderData (cart w), authorization (localStorage w !! "token"))]
    else [].
Proof.
  destruct (isAuthenticated w) eqn:Hauth; simpl.
  - case_bool_decide as Hempty; simpl.
    + unfold exec. rewrite placeOrder_empty_cart by done.
      by eexists.
    + rewrite placeOrder_submits_exec by done.
      set (w1 := exec (setIsPlacingOrder true) w).
      destruct (try_finally_setIsPlacingOrder
                  (try_catch (placeOrder_try srv (cart w))
                     (placeOrder_catch srv (cart w))) false w1) as (_ & -> & _).
      destruct (placeOrder_blocks_events srv (cart w) w1) as (more & -> & Hposts & _).
      eexists. split; [reflexivity|].
      change (posts (?e :: more)) with (posts [e] ++ posts more).
      by rewrite Hposts.
  - unfold exec. rewrite placeOrder_unauthenticated by done.
    eexists. split; [simpl; by rewrite <- (assoc_L (++))|done].
Qed.

(** X10: after [placeOrder] for an authenticated user with a cart the busy
    flag is off, however the order went, also when the handler throws; the
    local failures leave the flag as it was. *)
Theorem placeOrder_busy_flag (srv : Server) (w : World) :
  isPlacingOrder (exec (placeOrder srv) w) =
  if isAuthenticated w && negb (bool_decide (cart w = []))
  then false else isPlacingOrder w.
Proof.
  destruct (isAuthenticated w) eqn:Hauth; simpl.
  - case_bool_decide as Hempty; simpl.
    + unfold exec. by rewrite placeOrder_empty_cart.
    + rewrite placeOrder_submits_exec by done. apply try_finally_busy.
  - unfold exec. by rewrite placeOrder_unauthenticated.
Qed.

(** X11: when an order of an authenticated user with a cart does not
    succeed and [placeOrder] completes, it has shown an error toast. *)
Theorem placeOrder_failure_shown (srv : Server) (w : World) :
  isAuthenticated w = true → cart w ≠ [] →
  succeeded (reply_to srv w) = false →
  completion (placeOrder srv) w = Normal tt →
  ∃ events,
    trace (exec (placeOrder srv) w) = trace w ++ events ∧
    existsb is_error_toast events = true.
Proof.
  intros Hauth Hne Hfailed. unfold completion at 1.
  rewrite placeOrder_submits_exec, placeOrder_submits by done.
  set (w1 := exec (setIsPlacingOrder true) w).
  destruct (try_finally_setIsPlacingOrder
              (try_catch (placeOrder_try srv (cart w))
                 (placeOrder_catch srv (cart w))) false w1)
    as (_ & -> & _ & Hcompletion).
  unfold completion in Hcompletion at 1. rewrite Hcompletion.
  destruct (placeOrder_blocks_events srv (cart w) w1) as (more & -> & _ & Htoast).
  intros Hnormal. eexists. split; [reflexivity|].
  simpl. by apply Htoast.
Qed.

Lemma placeOrder_failure_shown_witness :
  ∃ events,
    trace (exec (placeOrder expired) shopping) = trace shopping ++ events ∧
    existsb is_error_toast events = true.
Proof.
  apply (placeOrder_failure_shown expired shopping); try reflexivity.
  vm_compute. discriminate.
Defined.

(** What [placeOrder] does for an authenticated user with a cart whose
    order is rejected, in terms of its [catch] block. *)
Lemma placeOrder_rejected (srv : Server) (w : World) (e : JsError) :
  isAuthenticated w = true → cart w ≠ [] →
  reply_to srv w = Rejected e →
  let request :=
    EPost "/orders" (orderData (cart w)) (authorization (localStorage w !! "token")) in
  placeOrder srv w =
  try_finally (placeOrder_catch srv (cart w) e) (setIsPlacingOrder false)
    (exec (emit request) (exec (setIsPlacingOrder true) w)).
Proof.
  intros Hauth Hne Hreply. simpl. unfold reply_to in Hreply.
  rewrite placeOrder_submits by done.
  unfold try_finally, try_catch. rewrite placeOrder_try_run.
  change (localStorage (exec (setIsPlacingOrder true) w)) with (localStorage w).
  by rewrite Hreply.
Qed.

Lemma placeOrder_catch_400_no_message (srv : Server) (lines : list CartLine)
    (e : JsError) (r : ErrorResponse) (w : World) :
  error_response e = Some r → status r = 400 →
  data r = None ∨ (∃ d, data r = Some d ∧ message d = None) →
  ∃ msg,
    placeOrder_catch srv lines e w =
    (Thrown (TypeError msg), exec (console_error "Error placing order:" e) w).
Proof.
  intros He Hs Hdata. unfold placeOrder_catch. run. simpl.
  rewrite He, Hs. simpl.
  destruct Hdata as [->|(d & -> & Hmessage)]; simpl; [by eexists|].
  rewrite Hmessage. by eexists.
Qed.

Lemma placeOrder_catch_400_unavailable (srv : Server) (lines : list CartLine)
    (e : JsError) (r : ErrorResponse) (d : ResponseData) (msg : string) (w : World) :
  error_response e = Some r → status r = 400 →
  data r = Some d → message d = Some msg → includes "unavailable" msg = true →
  placeOrder_catch srv lines e w =
  (Normal tt,
   exec (console_error "Error placing order:" e ;;;
         emit (EToast (ToastUnavailable msg lines))) w).
Proof.
  intros He Hs Hd Hm Hu. unfold placeOrder_catch. run. simpl.
  by rewrite He, Hs, Hd, Hm, Hu.
Qed.

Lemma placeOrder_catch_404 (srv : Server) (lines : list CartLine)
    (e : JsError) (r : ErrorResponse) (w : World) :
  error_response e = Some r → status r = 404 →
  let shown :=
    console_error "Error placing order:" e ;;;
    toast_error "Menu item not found - please refresh the menu" ;;;
    emit (EGet "/menu") in
  placeOrder_catch srv lines e w =
  match get_menu srv with
  | Fulfilled menu => (Normal tt, exec (shown ;;; setMenuItems menu) w)
  | Rejected e' => (Thrown e', exec shown w)
  end.
Proof.
  intros He Hs. unfold placeOrder_catch. run. simpl.
  rewrite He, Hs. simpl. by destruct (get_menu srv).
Qed.

(** X12: when the order is rejected with status 400 and the response has no
    body or no message, [placeOrder] throws a [TypeError] out of its
    [catch] block: it has logged the error and shown no toast; the cart is
    unchanged and the busy flag is off. *)
Theorem placeOrder_400_without_message (srv : Server) (w : World) (e : JsError)
    (r : ErrorResponse) :
  isAuthenticated w = true → cart w ≠ [] →
  reply_to srv w = Rejected e →
  error_response e = Some r → status r = 400 →
  data r = None ∨ (∃ d, data r = Some d ∧ message d = None) →
  (∃ msg, completion (placeOrder srv) w = Thrown (TypeError msg)) ∧
  trace (exec (placeOrder srv) w) =
    trace w ++
    [EPost "/orders" (orderData (cart w)) (authorization (localStorage w !! "token"));
     EConsoleError "Error placing order:" e] ∧
  cart (exec (placeOrder srv) w) = cart w ∧
  isPlacingOrder (exec (placeOrder srv) w) = false.
Proof.
  intros Hauth Hne Hreply He Hs Hdata.
  unfold exec, completion. rewrite (placeOrder_rejected srv w e) by done.
  unfold try_finally.
  destruct (placeOrder_catch_400_no_message srv (cart w) e r
              (exec (emit (EPost "/orders" (orderData (cart w))
                             (authorization (localStorage w !! "token"))))
                 (exec (setIsPlacingOrder true) w)) He Hs Hdata) as [msg ->].
  clear. destruct w as [mi c busy ci sr ri auth store tr].
  cbn -[orderData authorization].
  rewrite <- !(assoc_L (++)). split; [by eexists|done].
Qed.

Lemma placeOrder_400_without_message_witness :
  (∃ msg, completion (placeOrder malformed) shopping = Thrown (TypeError msg)) ∧
  trace (exec (placeOrder malformed) shopping) =
    trace shopping ++
    [EPost "/orders" (orderData (cart shopping))
       (authorization (localStorage shopping !! "token"));
     EConsoleError "Error placing order:"
       (HttpError "Request failed"
          (Some {| status := 400;
                   data := Some {| success := false; orderId := None;
                                   message := None |} |}))] ∧
  cart (exec (placeOrder malformed) shopping) = cart shopping ∧
  isPlacingOrder (exec (placeOrder malformed) shopping) = false.
Proof.
  apply (placeOrder_400_without_message malformed shopping _
           {| status := 400;
              data := Some {| success := false; orderId := None;
                              message := None |} |});
    try reflexivity.
  - vm_compute. discriminate.
  - right. by eexists.
Defined.

(** X13: when the order is rejected with status 404, [placeOrder] shows an
    error and fetches the menu again: the menu of the page becomes the one
    the server answers, or stays and the handler throws when that request
    is rejected too; the cart is unchanged. *)
Theorem placeOrder_404_refetches (srv : Server) (w : World) (e : JsError)
    (r : ErrorResponse) :
  isAuthenticated w = true → cart w ≠ [] →
  reply_to srv w = Rejected e →
  error_response e = Some r → status r = 404 →
  match get_menu srv with
  | Fulfilled menu =>
      completion (placeOrder srv) w = Normal tt ∧
      menuItems (exec (placeOrder srv) w) = menu
  | Rejected e' =>
      completion (placeOrder srv) w = Thrown e' ∧
      menuItems (exec (placeOrder srv) w) = menuItems w
  end ∧
  cart (exec (placeOrder srv) w) = cart w ∧
  trace (exec (placeOrder srv) w) =
    trace w ++
    [EPost "/orders" (orderData (cart w)) (authorization (localStorage w !! "token"));
     EConsoleError "Error placing order:" e;
     EToast (ToastError "Menu item not found - please refresh the menu");
     EGet "/menu"].
Proof.
  intros Hauth Hne Hreply He Hs.
  unfold exec, completion. rewrite (placeOrder_rejected srv w e) by done.
  unfold try_finally. rewrite (placeOrder_catch_404 srv (cart w) e r) by done.
  clear. destruct w as [mi c busy ci sr ri auth store tr].
  destruct (get_menu srv) as [menu|e']; cbn -[orderData authorization];
    by rewrite <- !(assoc_L (++)).
Qed.

Lemma placeOrder_404_refetches_witness :
  menuItems (exec (placeOrder stale_menu) shopping) = [burger; salad] ∧
  cart (exec (placeOrder stale_menu) shopping) = cart shopping.
Proof.
  destruct (placeOrder_404_refetches stale_menu shopping
              (HttpError "Request failed" (Some {| status := 404; data := None |}))
              {| status := 404; data := None |})
    as ([_ Hmenu] & Hcart & _); try reflexivity.
  - vm_compute. discriminate.
  - split; [exact Hmenu|exact Hcart].
Defined.

Lemma placeOrder_unavailable_run (srv : Server) (w : World) (e : JsError)
    (r : ErrorResponse) (d : ResponseData) (msg : string) :
  isAuthenticated w = true → cart w ≠ [] →
  reply_to srv w = Rejected e →
  error_response e = Some r → status r = 400 →
  data r = Some d → message d = Some msg → includes "unavailable" msg = true →
  completion (placeOrder srv) w = Normal tt ∧
  cart (exec (placeOrder srv) w) = cart w ∧
  trace (exec (placeOrder srv) w) =
    trace w ++
    [EPost "/orders" (orderData (cart w)) (authorization (localStorage w !! "token"));
     EConsoleError "Error placing order:" e;
     EToast (ToastUnavailable msg (cart w))].
Proof.
  intros Hauth Hne Hreply He Hs Hd Hm Hu.
  unfold exec, completion. rewrite (placeOrder_rejected srv w e) by done.
  unfold try_finally.
  rewrite (placeOrder_catch_400_unavailable srv (cart w) e r d msg) by done.
  clear. destruct w as [mi c busy ci sr ri auth store tr].
  cbn -[orderData authorization]. by rewrite <- !(assoc_L (++)).
Qed.

(** X14: when the order is rejected with status 400 and a message that
    mentions "unavailable", [placeOrder] completes with a toast whose
    button captures the cart of that moment; the cart is unchanged, and
    the button can be clicked from then on. *)
Theorem placeOrder_offers_pruning (srv : Server) (w : World) (e : JsError)
    (r : ErrorResponse) (d : ResponseData) (msg : string) :
  isAuthenticated w = true → cart w ≠ [] →
  reply_to srv w = Rejected e →
  error_response e = Some r → status r = 400 →
  data r = Some d → message d = Some msg → includes "unavailable" msg = true →
  completion (placeOrder srv) w = Normal tt ∧
  cart (exec (placeOrder srv) w) = cart w ∧
  last (trace (exec (placeOrder srv) w))
  = Some (EToast (ToastUnavailable msg (cart w))) ∧
  step (exec (placeOrder srv) w)
       (exec (removeUnavailableItems msg (cart w)) (exec (placeOrder srv) w)).
Proof.
  intros Hauth Hne Hreply He Hs Hd Hm Hu.
  destruct (placeOrder_unavailable_run srv w e r d msg) as (Hc & Hcart & Htrace);
    try done.
  split; [done|]. split; [done|]. split.
  - rewrite Htrace. by rewrite last_app.
  - apply step_removeUnavailableItems. rewrite Htrace. set_solver.
Qed.

Lemma placeOrder_offers_pruning_witness :
  completion (placeOrder unavailable) shopping = Normal tt ∧
  cart (exec (placeOrder unavailable) shopping) = cart shopping ∧
  last (trace (exec (placeOrder unavailable) shopping))
  = Some (EToast (ToastUnavailable "Item 'Burger' is unavailable" (cart shopping))) ∧
  step (exec (placeOrder unavailable) shopping)
       (exec (removeUnavailableItems "Item 'Burger' is unavailable" (cart shopping))
          (exec (placeOrder unavailable) shopping)).
Proof.
  apply (placeOrder_offers_pruning unavailable shopping sold_out_error
           sold_out_response sold_out_body);
    try reflexivity.
  vm_compute. discriminate.
Defined.

(** *** The button that removes unavailable items *)

Lemma removeUnavailableItems_cart (w : World) (msg : string)
    (captured : list CartLine) :
  cart (exec (removeUnavailableItems msg captured) w) =
  filter (λ item, Some (name item) ≠ split "'" msg !! 1%nat) captured.
Proof. reflexivity. Qed.

Lemma split_no_char (c : ascii) (s : string) :
  contains_char c s = false → split c s = [s].
Proof.
  induction s as [|a rest IH]; simpl; [done|].
  intros Hno. apply orb_false_iff in Hno as [Ha Hrest].
  rewrite Ha. by rewrite IH.
Qed.

Lemma split_at_char (c : ascii) (pre rest : string) :
  contains_char c pre = false →
  split c (pre +:+ String c rest) = pre :: split c rest.
Proof.
  induction pre as [|a pre IH]; simpl.
  - intros _. by rewrite bool_decide_eq_true_2.
  - intros Hno. apply orb_false_iff in Hno as [Ha Hpre].
    rewrite Ha. by rewrite IH.
Qed.

(** X15: the button removes, from the cart it captured, the lines whose
    name is the text between the first two apostrophes of the message; for
    a message without an apostrophe it removes nothing. *)
Theorem removeUnavailableItems_parses (w : World) (captured : list CartLine) :
  (∀ msg, contains_char "'" msg = false →
     cart (exec (removeUnavailableItems msg captured) w) = captured) ∧
  (∀ pre quoted post,
     contains_char "'" pre = false → contains_char "'" quoted = false →
     cart (exec (removeUnavailableItems
                   (pre +:+ String "'" (quoted +:+ String "'" post)) captured) w)
     = filter (λ item, name item ≠ quoted) captured).
Proof.
  split.
  - intros msg Hno. rewrite removeUnavailableItems_cart, split_no_char by done.
    simpl. apply filter_id_Forall, Forall_forall. done.
  - intros pre quoted post Hpre Hquoted.
    rewrite removeUnavailableItems_cart, !split_at_char by done. simpl.
    apply list_filter_iff. intros item. split; [|congruence].
    intros Hne Heq. apply Hne. by rewrite Heq.
Qed.

Lemma removeUnavailableItems_parses_witness :
  cart (exec (removeUnavailableItems "Order rejected" (cart shopping)) shopping)
  = cart shopping ∧
  cart (exec (removeUnavailableItems
                ("Item " +:+ String "'" ("Burger" +:+ String "'" " is unavailable"))
                (cart shopping)) shopping)
  = filter (λ item, name item ≠ "Burger") (cart shopping).
Proof.
  split.
  - apply (proj1 (removeUnavailableItems_parses shopping (cart shopping))).
    reflexivity.
  - apply (proj2 (removeUnavailableItems_parses shopping (cart shopping)));
      reflexivity.
Defined.

(** X16: the button works on the cart of the failed order, not on the
    current one: a line added after the order failed is in the cart until
    the button is clicked, and gone afterwards. *)
Theorem pruning_drops_later_lines (srv : Server) (w : World) (e : JsError)
    (r : ErrorResponse) (d : ResponseData) (msg : string) (item : MenuItem) :
  isAuthenticated w = true → cart w ≠ [] →
  reply_to srv w = Rejected e →
  error_response e = Some r → status r = 400 →
  data r = Some d → message d = Some msg → includes "unavailable" msg = true →
  ¬ has_line (mi_id item) (cart w) →
  let later := exec (addToCart item) (exec (placeOrder srv) w) in
  step later (exec (removeUnavailableItems msg (cart w)) later) ∧
  has_line (mi_id item) (cart later) ∧
  ¬ has_line (mi_id item) (cart (exec (removeUnavailableItems msg (cart w)) later)).
Proof.
  intros Hauth Hne Hreply He Hs Hd Hm Hu Hno later.
  destruct (placeOrder_unavailable_run srv w e r d msg) as (_ & Hcart & Htrace);
    try done.
  split; [|split].
  - apply step_removeUnavailableItems.
    destruct (step_trace _ _ (step_addToCart (exec (placeOrder srv) w) item))
      as (events & Hlater & _).
    unfold later. rewrite Hlater, Htrace. set_solver.
  - unfold later. rewrite addToCart_cart, Hcart.
    assert (find (λ cartItem, _id cartItem = mi_id item) (cart w) = None) as ->.
    { apply find_no_line. intros l Hin Hid. apply Hno. by exists l. }
    exists (spread_item item 1 [] ""). split; [set_solver|done].
  - rewrite removeUnavailableItems_cart. intros (l & Hl & Hid).
    apply list_elem_of_filter in Hl as [_ Hl]. apply Hno. by exists l.
Qed.

Lemma shopping_has_no_tea : ¬ has_line (mi_id tea) (cart shopping).
Proof.
  intros (l & Hl & Hid). vm_compute in Hl.
  apply elem_of_cons in Hl as [->|Hl]; [discriminate|].
  apply elem_of_cons in Hl as [->|Hl]; [discriminate|].
  by apply not_elem_of_nil in Hl.
Qed.

Lemma shopping_not_empty : cart shopping ≠ [].
Proof. vm_compute. discriminate. Qed.

Lemma pruning_drops_later_lines_witness :
  has_line (mi_id tea)
    (cart (exec (addToCart tea) (exec (placeOrder unavailable) shopping))) ∧
  ¬ has_line (mi_id tea)
    (cart (exec (removeUnavailableItems "Item 'Burger' is unavailable" (cart shopping))
             (exec (addToCart tea) (exec (placeOrder unavailable) shopping)))).
Proof.
  exact (proj2 (pruning_drops_later_lines unavailable shopping sold_out_error
                  sold_out_response sold_out_body "Item 'Burger' is unavailable" tea
                  eq_refl shopping_not_empty eq_refl eq_refl eq_refl eq_refl eq_refl
                  eq_refl shopping_has_no_tea)).
Defined.

(** ** The customization dialog *)

Lemma toggleIngredient_input (w : World) (ingredient : string) :
  removedIngredientsInput (exec (toggleIngredient ingredient) w) =
  if bool_decide (ingredient ∈ removedIngredientsInput w)
  then filter (λ i, i ≠ ingredient) (removedIngredientsInput w)
  else removedIngredientsInput w ++ [ingredient].
Proof. reflexivity. Qed.

Lemma toggle_membership (w : World) (ingredient j : string) :
  j ∈ removedIngredientsInput (exec (toggleIngredient ingredient) w) ↔
  if decide (j = ingredient) then j ∉ removedIngredientsInput w
  else j ∈ removedIngredientsInput w.
Proof.
  rewrite toggleIngredient_input.
  case_bool_decide as Hin; case_decide as Hj; subst;
    rewrite ?list_elem_of_filter, ?elem_of_app, ?list_elem_of_singleton;
    tauto.
Qed.

Lemma toggle_NoDup (w : World) (ingredient : string) :
  NoDup (removedIngredientsInput w) →
  NoDup (removedIngredientsInput (exec (toggleIngredient ingredient) w)).
Proof.
  intros Hnd. rewrite toggleIngredient_input. case_bool_decide as Hin.
  - by apply NoDup_filter.
  - apply NoDup_app. split; [done|]. split; [|apply NoDup_singleton].
    intros j Hj Hj'. apply list_elem_of_singleton in Hj'. by subst.
Qed.

Lemma checked_iff (removed : list string) (ingredient : string) :
  ingredient_checked removed ingredient = true ↔ ingredient ∉ removed.
Proof.
  unfold ingredient_checked. case_bool_decide; simpl; naive_solver.
Qed.

Lemma checked_ext (removed removed' : list string) (j : string) :
  (j ∈ removed' ↔ j ∈ removed) →
  ingredient_checked removed' j = ingredient_checked removed j.
Proof.
  intros Hiff. unfold ingredient_checked. f_equal.
  apply bool_decide_ext. done.
Qed.

(** X17: a click on the checkbox of an ingredient flips that checkbox and
    no other, keeps the list of removed ingredients free of duplicates, and
    changes nothing else: the menu, the cart, the busy flag, the item
    being customized, the special request, the authentication, the storage
    and the effects performed are as they were. *)
Theorem toggleIngredient_flips (w : World) (ingredient : string) :
  let before := removedIngredientsInput w in
  let after := removedIngredientsInput (exec (toggleIngredient ingredient) w) in
  ingredient_checked after ingredient = negb (ingredient_checked before ingredient) ∧
  (∀ j, j ≠ ingredient → ingredient_checked after j = ingredient_checked before j) ∧
  (NoDup before → NoDup after) ∧
  (menuItems (exec (toggleIngredient ingredient) w) = menuItems w ∧
   cart (exec (toggleIngredient ingredient) w) = cart w ∧
   isPlacingOrder (exec (toggleIngredient ingredient) w) = isPlacingOrder w ∧
   customizingItem (exec (toggleIngredient ingredient) w) = customizingItem w ∧
   specialRequestInput (exec (toggleIngredient ingredient) w) = specialRequestInput w ∧
   isAuthenticated (exec (toggleIngredient ingredient) w) = isAuthenticated w ∧
   localStorage (exec (toggleIngredient ingredient) w) = localStorage w ∧
   trace (exec (toggleIngredient ingredient) w) = trace w).
Proof.
  cbv zeta. split; [|split; [|split]].
  - unfold ingredient_checked. f_equal.
    rewrite <- bool_decide_not. apply bool_decide_ext.
    rewrite toggle_membership. by rewrite decide_True.
  - intros j Hj. apply checked_ext.
    rewrite toggle_membership. by rewrite decide_False.
  - apply toggle_NoDup.
  - done.
Qed.

(** X18: two clicks on the same checkbox bring every checkbox back to its
    state, and bring back the very list when the ingredient was not in it. *)
Theorem toggleIngredient_twice (w : World) (ingredient : string) :
  let before := removedIngredientsInput w in
  let after :=
    removedIngredientsInput
      (exec (toggleIngredient ingredient) (exec (toggleIngredient ingredient) w)) in
  (∀ j, ingredient_checked after j = ingredient_checked before j) ∧
  (ingredient ∉ before → after = before).
Proof.
  cbv zeta. split.
  - intros j. apply checked_ext. rewrite toggle_membership.
    case_decide as Hj; rewrite toggle_membership.
    + rewrite decide_True by done. split; [apply dec_stable|tauto].
    + by rewrite decide_False.
  - intros Hnot. rewrite toggleIngredient_input, bool_decide_eq_true_2.
    + rewrite toggleIngredient_input, bool_decide_eq_false_2 by done.
      rewrite filter_app, filter_id_Forall.
      * rewrite filter_cons_False by (intros Hne; by apply Hne).
        by rewrite filter_nil, (right_id_L [] (++)).
      * apply Forall_forall. intros j Hj ->. done.
    + apply toggle_membership. by rewrite decide_True.
Qed.

Lemma placeOrder_dialog (srv : Server) (w : World) :
  customizingItem (exec (placeOrder srv) w) = customizingItem w ∧
  removedIngredientsInput (exec (placeOrder srv) w) = removedIngredientsInput w ∧
  specialRequestInput (exec (placeOrder srv) w) = specialRequestInput w.
Proof.
  destruct w as [mi c busy ci sr ri auth store tr].
  unfold placeOrder, placeOrder_try, placeOrder_catch. run.
  cbn -[orderData authorization]. by_cases.
Qed.

(** *** What the rendered page can do *)

Lemma ui_step_step (w w' : World) : ui_step w w' → step w w'.
Proof. destruct 1; by constructor. Qed.

Lemma ui_reachable_reachable (w : World) : ui_reachable w → reachable w.
Proof.
  intros (authenticated & storage & Hsteps). exists authenticated, storage.
  eapply rtc_subrel; [|done]. apply ui_step_step.
Qed.

Lemma customization_ok_with_quantity (l : CartLine) (q : Z) :
  customization_ok l → customization_ok (with_quantity l q).
Proof. done. Qed.

Lemma customization_ok_plain (item : MenuItem) :
  customization_ok (spread_item item 1 [] "").
Proof.
  split; [constructor|]. intros i Hi. by apply not_elem_of_nil in Hi.
Qed.

Lemma Forall_filter_keeps {A} (R Q : A → Prop) `{∀ x, Decision (Q x)} (l : list A) :
  Forall R l → Forall R (filter Q l).
Proof.
  rewrite !Forall_forall. intros Hall x Hx.
  apply list_elem_of_filter in Hx as [_ Hx]. by apply Hall.
Qed.

Lemma Forall_requantify (R : CartLine → Prop) (Q : CartLine → Prop)
    `{∀ x, Decision (Q x)} (q : CartLine → Z) (lines : list CartLine) :
  (∀ l n, R l → R (with_quantity l n)) →
  Forall R lines →
  Forall R ((λ l, if bool_decide (Q l) then with_quantity l (q l) else l) <$> lines).
Proof.
  intros Hq Hall. apply Forall_fmap. eapply Forall_impl; [exact Hall|].
  intros l Hl. simpl. case_bool_decide; [by apply Hq|done].
Qed.

Lemma dialog_ok_frame (w w' : World) :
  customizingItem w' = customizingItem w ∧
  removedIngredientsInput w' = removedIngredientsInput w ∧
  specialRequestInput w' = specialRequestInput w →
  dialog_ok w → dialog_ok w'.
Proof. unfold dialog_ok. by intros (-> & -> & ->). Qed.

Lemma fetchMenu_dialog (srv : Server) (w : World) :
  customizingItem (exec (fetchMenu srv) w) = customizingItem w ∧
  removedIngredientsInput (exec (fetchMenu srv) w) = removedIngredientsInput w ∧
  specialRequestInput (exec (fetchMenu srv) w) = specialRequestInput w.
Proof.
  destruct w as [mi c busy ci sr ri auth store tr].
  unfold fetchMenu. run. simpl. by_cases.
Qed.

Lemma addToCart_dialog (item : MenuItem) (w : World) :
  customizingItem (exec (addToCart item) w) = customizingItem w ∧
  removedIngredientsInput (exec (addToCart item) w) = removedIngredientsInput w ∧
  specialRequestInput (exec (addToCart item) w) = specialRequestInput w.
Proof.
  destruct w as [mi c busy ci sr ri auth store tr].
  unfold addToCart. run. simpl. by_cases.
Qed.

Lemma updateQuantity_dialog (itemId : string) (newQuantity : Z) (w : World) :
  customizingItem (exec (updateQuantity itemId newQuantity) w) = customizingItem w ∧
  removedIngredientsInput (exec (updateQuantity itemId newQuantity) w)
  = removedIngredientsInput w ∧
  specialRequestInput (exec (updateQuantity itemId newQuantity) w)
  = specialRequestInput w.
Proof.
  destruct w as [mi c busy ci sr ri auth store tr].
  unfold updateQuantity. run. simpl. by_cases.
Qed.

Lemma addCustomizedToCart_closes (w : World) (item : MenuItem) :
  customizingItem w = Some item →
  customizingItem (exec addCustomizedToCart w) = None ∧
  removedIngredientsInput (exec addCustomizedToCart w) = [] ∧
  specialRequestInput (exec addCustomizedToCart w) = "".
Proof.
  intros Hc. unfold addCustomizedToCart, exec. rewrite bind_gets, Hc.
  destruct w as [mi c busy ci sr ri auth store tr].
  run. simpl. by_cases.
Qed.

Lemma ui_step_dialog (w w' : World) : ui_step w w' → dialog_ok w → dialog_ok w'.
Proof.
  intros Hstep Hok.
  destruct Hstep as [w srv|w item Hitem|w item Hitem
                    |w item ingredients ingredient Hc Hings Hin|w item text Hc
                    |w item Hc|w item Hc|w line Hline|w line Hline|w line Hline
                    |w srv Hne Hbusy|w msg captured Hshown].
  - revert Hok. apply dialog_ok_frame, fetchMenu_dialog.
  - revert Hok. apply dialog_ok_frame, addToCart_dialog.
  - unfold dialog_ok. simpl. split; [constructor|].
    intros i Hi. by apply not_elem_of_nil in Hi.
  - unfold dialog_ok in *.
    change (customizingItem (exec (toggleIngredient ingredient) w))
      with (customizingItem w).
    rewrite Hc in *. destruct Hok as [Hnd Hsub]. split; [by apply toggle_NoDup|].
    intros i Hi. apply toggle_membership in Hi.
    case_decide as Hi'; [subst; eauto|by apply Hsub].
  - unfold dialog_ok in *.
    change (customizingItem (exec (setSpecialRequest text) w))
      with (customizingItem w).
    by rewrite Hc in *.
  - done.
  - unfold dialog_ok.
    by destruct (addCustomizedToCart_closes w item Hc) as (-> & -> & ->).
  - done.
  - revert Hok. apply dialog_ok_frame, updateQuantity_dialog.
  - revert Hok. apply dialog_ok_frame, updateQuantity_dialog.
  - revert Hok. apply dialog_ok_frame, placeOrder_dialog.
  - done.
Qed.

Lemma ui_step_cart (w w' : World) :
  ui_step w w' → ui_ok w → Forall customization_ok (cart w').
Proof.
  intros Hstep (Hdialog & Hcart & Hcaptured).
  destruct Hstep as [w srv|w item Hitem|w item Hitem
                    |w item ingredients ingredient Hc Hings Hin|w item text Hc
                    |w item Hc|w item Hc|w line Hline|w line Hline|w line Hline
                    |w srv Hne Hbusy|w msg captured Hshown];
    try done.
  - by rewrite fetchMenu_cart.
  - rewrite addToCart_cart. destruct (find _ (cart w)).
    + by apply (Forall_requantify _ (λ l, _id l = mi_id item) (λ l, quantity l + 1)).
    + apply Forall_app. split; [done|].
      apply Forall_singleton, customization_ok_plain.
  - rewrite (addCustomizedToCart_cart w item Hc). simpl.
    unfold dialog_ok in Hdialog. rewrite Hc in Hdialog.
    assert (customization_ok
              (spread_item item 1 (removedIngredientsInput w) (specialRequestInput w)))
      as Hline by done.
    destruct (findIndex_cases (λ l, _id l = mi_id item) (cart w)) as [Hnone|[i Hi]].
    + rewrite Hnone. rewrite bool_decide_eq_false_2 by lia.
      apply Forall_app. split; [done|]. by apply Forall_singleton.
    + rewrite Hi. rewrite bool_decide_eq_true_2 by lia.
      rewrite imap_replace. by apply Forall_insert.
  - by apply Forall_filter_keeps.
  - destruct (decide (quantity line - 1 < 1)) as [Hlt|Hge].
    + by rewrite updateQuantity_noop.
    + rewrite updateQuantity_cart by lia.
      by apply (Forall_requantify _ (λ l, _id l = _id line) (λ _, quantity line - 1)).
  - destruct (decide (quantity line + 1 < 1)) as [Hlt|Hge].
    + by rewrite updateQuantity_noop.
    + rewrite updateQuantity_cart by lia.
      by apply (Forall_requantify _ (λ l, _id l = _id line) (λ _, quantity line + 1)).
  - destruct (placeOrder_cart_cases srv w) as [->| ->]; [done|constructor].
  - apply Forall_filter_keeps.
    rewrite Forall_forall in Hcaptured. apply Hcaptured.
    by eapply captured_carts_elem.
Qed.

Lemma ui_step_ok (w w' : World) : ui_step w w' → ui_ok w → ui_ok w'.
Proof.
  intros Hstep Hok. split; [|split].
  - eapply ui_step_dialog; [done|]. by destruct Hok.
  - by eapply ui_step_cart.
  - destruct (step_trace w w' (ui_step_step w w' Hstep)) as (events & -> & Hevents).
    destruct Hok as (_ & Hcart & Hcaptured).
    by eapply (captured_carts_extend (Forall customization_ok)).
Qed.

Lemma ui_reachable_ok (w : World) : ui_reachable w → ui_ok w.
Proof.
  intros (authenticated & storage & Hsteps).
  revert w Hsteps. apply rtc_ind_r.
  - split; [done|]. split; constructor.
  - intros w w' _ Hstep IH. by eapply ui_step_ok.
Qed.

Lemma burger_on_menu : burger ∈ menuItems browsing.
Proof. vm_compute. constructor. Qed.

Lemma customized_ui_reachable : ui_reachable customized.
Proof.
  exists true, {["token" := "t0k3n"]}. unfold customized, browsing, fresh.
  eapply rtc_l; [apply (ui_fetchMenu _ serving)|].
  eapply rtc_l; [apply (ui_customize _ burger), burger_on_menu|].
  eapply rtc_l; [apply (ui_toggle _ burger ["bun"; "beef"; "onion"] "onion");
                 [reflexivity|reflexivity|set_solver]|].
  eapply rtc_l; [apply (ui_addCustomized _ burger); reflexivity|].
  apply rtc_refl.
Qed.

(** X19: in every state reached through the rendered page, the removed
    ingredients of every cart line are ingredients of the item of that
    line, each listed once. *)
Theorem ui_cart_customizations (w : World) :
  ui_reachable w → Forall customization_ok (cart w).
Proof. intros Hw. by destruct (ui_reachable_ok w Hw) as (_ & Hcart & _). Qed.

Lemma ui_cart_customizations_witness : Forall customization_ok (cart customized).
Proof. exact (ui_cart_customizations customized customized_ui_reachable). Defined.

(** X20: in every state reached through the rendered page, the inputs of
    the dialog are empty while no item is being customized, and otherwise
    the removed ingredients are ingredients of that item, each listed once. *)
Theorem ui_dialog_inputs (w : World) :
  ui_reachable w →
  (customizingItem w = None →
   removedIngredientsInput w = [] ∧ specialRequestInput w = "") ∧
  (∀ item, customizingItem w = Some item →
   NoDup (removedIngredientsInput w) ∧
   ∀ i, i ∈ removedIngredientsInput w →
        ∃ ingredients', mi_ingredients item = Some ingredients' ∧ i ∈ ingredients').
Proof.
  intros Hw. destruct (ui_reachable_ok w Hw) as (Hdialog & _).
  unfold dialog_ok in Hdialog. split.
  - intros Hc. by rewrite Hc in Hdialog.
  - intros item Hc. by rewrite Hc in Hdialog.
Qed.

Lemma ui_dialog_inputs_witness :
  removedIngredientsInput customized = [] ∧ specialRequestInput customized = "".
Proof.
  exact (proj1 (ui_dialog_inputs customized customized_ui_reachable) eq_refl).
Defined.

(** ** The category tabs *)

Lemma set_add_all_first_occurrences (seen xs : list string) :
  set_add_all seen xs = seen ++ filter (λ y, y ∉ seen) (first_occurrences xs).
Proof.
  revert seen. induction xs as [|x rest IH]; intros seen; simpl.
  - by rewrite filter_nil, (right_id_L [] (++)).
  - rewrite IH. case_bool_decide as Hx.
    + rewrite filter_cons_False by (intros Hn; by apply Hn).
      f_equal. rewrite list_filter_filter. apply list_filter_iff.
      intros y. split; [|tauto]. intros Hy. split; [done|]. by intros ->.
    + rewrite filter_cons_True by done.
      rewrite <- (assoc_L (++)). simpl. do 2 f_equal.
      rewrite list_filter_filter. apply list_filter_iff.
      intros y. rewrite elem_of_app, list_elem_of_singleton. tauto.
Qed.

Lemma first_occurrences_elem (xs : list string) (x : string) :
  x ∈ first_occurrences xs ↔ x ∈ xs.
Proof.
  induction xs as [|a rest IH]; simpl; [done|].
  rewrite !elem_of_cons, list_elem_of_filter, IH.
  destruct (decide (x = a)); tauto.
Qed.

Lemma first_occurrences_NoDup (xs : list string) : NoDup (first_occurrences xs).
Proof.
  induction xs as [|a rest IH]; simpl; [constructor|].
  apply NoDup_cons. split; [|by apply NoDup_filter].
  intros Ha. by apply list_elem_of_filter in Ha as [Hne _].
Qed.

Lemma uniqueCategories_first_occurrences (data : list MenuItem) :
  uniqueCategories data = first_occurrences (mi_category <$> data).
Proof.
  unfold uniqueCategories. rewrite set_add_all_first_occurrences. simpl.
  apply filter_id_Forall, Forall_forall. intros y _. apply not_elem_of_nil.
Qed.

(** X21: the category tabs are the categories of the menu items, each once,
    in the order in which they first occur in the menu. *)
Theorem uniqueCategories_spec (data : list MenuItem) :
  uniqueCategories data = first_occurrences (mi_category <$> data) ∧
  NoDup (uniqueCategories data) ∧
  (∀ c, c ∈ uniqueCategories data ↔ ∃ item, item ∈ data ∧ mi_category item = c).
Proof.
  rewrite uniqueCategories_first_occurrences. split; [done|]. split.
  - apply first_occurrences_NoDup.
  - intros c. rewrite first_occurrences_elem, list_elem_of_fmap. split.
    + intros (item & -> & Hitem). eauto.
    + intros (item & Hitem & <-). eauto.
Qed.

(** The tab "all" shows the whole menu; any other tab shows exactly the
    items of its category, in the order of the menu.  A category that is
    itself called "all" therefore shows the whole menu. *)
Theorem filteredItems_spec (selectedCategory : string) (menu : list MenuItem) :
  (selectedCategory = "all" → filteredItems selectedCategory menu = menu) ∧
  (selectedCategory ≠ "all" →
   ∀ item, item ∈ filteredItems selectedCategory menu ↔
           item ∈ menu ∧ mi_category item = selectedCategory) ∧
  filteredItems selectedCategory menu `sublist_of` menu.
Proof.
  unfold filteredItems. split; [|split].
  - intros ->. done.
  - intros Hne item. rewrite bool_decide_eq_false_2 by done.
    rewrite list_elem_of_filter. tauto.
  - case_bool_decide; [done|apply sublist_filter].
Qed.

(** X22: every tab built from a menu shows at least one item, and every
    item of the menu is shown under the tab of its category. *)
Theorem tabs_cover_menu (menu : list MenuItem) :
  (∀ c, c ∈ uniqueCategories menu → filteredItems c menu ≠ []) ∧
  (∀ item, item ∈ menu →
     mi_category item ∈ uniqueCategories menu ∧
     item ∈ filteredItems (mi_category item) menu).
Proof.
  assert (∀ item, item ∈ menu → item ∈ filteredItems (mi_category item) menu)
    as Hshown.
  { intros item Hitem. unfold filteredItems.
    case_bool_decide; [done|]. by apply list_elem_of_filter. }
  split.
  - intros c Hc Hempty.
    rewrite uniqueCategories_first_occurrences, first_occurrences_elem in Hc.
    apply list_elem_of_fmap in Hc as (item & -> & Hitem).
    apply Hshown in Hitem. rewrite Hempty in Hitem.
    by apply not_elem_of_nil in Hitem.
  - intros item Hitem. split; [|by apply Hshown].
    rewrite uniqueCategories_first_occurrences, first_occurrences_elem.
    apply list_elem_of_fmap. eauto.
Qed.

Example categories_of_menu :
  uniqueCategories [burger; salad; tea; burger] = ["mains"; "starters"; "drinks"].
Proof. reflexivity. Qed.

(** ** The registration form *)

(** X23: [handleSubmit] calls [register] exactly when the two password
    inputs hold the same text, once, with the name, email, password and
    role of the form; it never changes the form. *)
Theorem handleSubmit_calls (register : Register.Payload → Settled Register.Result)
    (s : Register.State) :
  ∃ events,
    Register.effects (Register.handleSubmit register s).2
    = Register.effects s ++ events ∧
    Register.calls events =
    (if decide (Register.passwords_match s) then [Register.payload_of s] else []) ∧
    Register.formData (Register.handleSubmit register s).2 = Register.formData s.
Proof.
  unfold Register.handleSubmit, Register.passwords_match.
  case_bool_decide as Hp.
  - rewrite decide_False by done. by eexists.
  - rewrite decide_True by done.
    fold (Register.payload_of s).
    destruct (register (Register.payload_of s)) as [result|e]; simpl.
    + destruct (Register.success result); simpl;
        rewrite <- ?(assoc_L (++)); by eexists.
    + by eexists.
Qed.

(** X24: a submit with passwords that differ shows "Passwords do not match"
    and changes nothing else.  Otherwise the loading flag is off again when
    [register] resolves, and stays on, with the error thrown, when
    [register] rejects. *)
Theorem handleSubmit_loading (register : Register.Payload → Settled Register.Result)
    (s : Register.State) :
  (¬ Register.passwords_match s →
   Register.handleSubmit register s =
   (Normal tt, Register.emit (Register.ToastError (Some "Passwords do not match")) s)) ∧
  (Register.passwords_match s →
   match register (Register.payload_of s) with
   | Fulfilled _ =>
       (Register.handleSubmit register s).1 = Normal tt ∧
       Register.isLoading (Register.handleSubmit register s).2 = false
   | Rejected e =>
       (Register.handleSubmit register s).1 = Thrown e ∧
       Register.isLoading (Register.handleSubmit register s).2 = true
   end).
Proof.
  unfold Register.handleSubmit, Register.passwords_match. split.
  - intros Hp. by rewrite bool_decide_eq_true_2.
  - intros Hp. rewrite bool_decide_eq_false_2 by (intros Hn; by apply Hn).
    fold (Register.payload_of s).
    destruct (register (Register.payload_of s)) as [result|e]; [|done].
    by destruct (Register.success result).
Qed.

Lemma filled_passwords_match : Register.passwords_match Register.filled.
Proof. reflexivity. Qed.

Lemma mistyped_passwords_differ : ¬ Register.passwords_match Register.mistyped.
Proof. unfold Register.passwords_match. vm_compute. discriminate. Qed.

Lemma handleSubmit_loading_witness :
  Register.handleSubmit Register.accepts Register.mistyped =
  (Normal tt,
   Register.emit (Register.ToastError (Some "Passwords do not match"))
     Register.mistyped) ∧
  Register.isLoading
    (Register.handleSubmit Register.unreachable_server Register.filled).2 = true.
Proof.
  split.
  - exact (proj1 (handleSubmit_loading Register.accepts Register.mistyped)
             mistyped_passwords_differ).
  - exact (proj2 (proj2 (handleSubmit_loading Register.unreachable_server
                           Register.filled) filled_passwords_match)).
Defined.

(** X25: [handleSubmit] goes to the menu page exactly when the passwords
    match and [register] resolves with success, and goes nowhere else; when
    [register] resolves without success the last thing shown is an error
    toast with the message of the result. *)
Theorem handleSubmit_navigates (register : Register.Payload → Settled Register.Result)
    (s : Register.State) :
  ∃ events,
    Register.effects (Register.handleSubmit register s).2
    = Register.effects s ++ events ∧
    Register.navigations events =
    (if decide (Register.passwords_match s) then
       match register (Register.payload_of s) with
       | Fulfilled result => if Register.success result then ["/menu"] else []
       | Rejected _ => []
       end
     else []) ∧
    (Register.passwords_match s →
     ∀ result, register (Register.payload_of s) = Fulfilled result →
               Register.success result = false →
               last events = Some (Register.ToastError (Register.message result))).
Proof.
  unfold Register.handleSubmit, Register.passwords_match.
  case_bool_decide as Hp.
  - rewrite decide_False by done. eexists. split; [reflexivity|]. by split.
  - rewrite decide_True by done.
    fold (Register.payload_of s).
    destruct (register (Register.payload_of s)) as [result|e]; simpl.
    + destruct (Register.success result) eqn:Hs; simpl;
        rewrite <- ?(assoc_L (++)); (eexists; split; [reflexivity|]);
        (split; [reflexivity|]); intros _ result' Hr Hs'; simplify_eq;
        first [congruence|reflexivity].
    + eexists. split; [reflexivity|]. split; [reflexivity|]. by intros.
Qed.

Lemma handleChange_other (k v : string) (s : Register.State) (field : string) :
  field ≠ k →
  Register.formData (Register.handleChange k v s) !! field
  = Register.formData s !! field.
Proof. intros Hne. simpl. by rewrite lookup_insert_ne. Qed.

(** X26: a visitor who never changes the role select registers with the
    role the form starts with, "customer", whatever else was typed. *)
Theorem default_role_is_customer (changes : list (string * string)) :
  Forall (λ change, change.1 ≠ "role") changes →
  Register.role (Register.payload_of (Register.fill changes Register.initial))
  = Some "customer".
Proof.
  intros Hchanges. simpl.
  assert (∀ s, Register.formData s !! "role" = Some "customer" →
               Register.formData (Register.fill changes s) !! "role" = Some "customer")
    as Hfill.
  { induction Hchanges as [|[k v] rest Hk _ IH]; intros s Hs; [done|].
    change (Register.fill ((k, v) :: rest) s)
      with (Register.fill rest (Register.handleChange k v s)).
    apply IH. rewrite handleChange_other; [done|].
    simpl in Hk. congruence. }
  by apply Hfill.
Qed.

Lemma default_role_is_customer_witness :
  Register.role (Register.payload_of Register.filled) = Some "customer".
Proof.
  apply (default_role_is_customer
           [("name", "Abeba"); ("email", "abeba@example.com");
            ("password", "secret1"); ("confirmPassword", "secret1")]).
  repeat constructor; simpl; discriminate.
Defined.
